(** * c19map-import: the reconciliation driver of [import.py]

    A shallow embedding of the driver script [import.py]: the loaders
    ([fetch], [fetch_raw_jhu_data], [fetch_intervention_data]), the
    re-keying of the population and intervention tables, the hierarchical
    consolidation, the two point corrections, the coverage warnings and the
    CSV output.

    Conventions.
    - A [datetime.date] is its proleptic Gregorian ordinal
      ([date.toordinal()]), an integer; [d - datetime.timedelta(1)] is
      [d - 1].
    - A place key is the Python tuple [(country, province, district)].
    - The module-level dictionary [places] is a finite map from keys to
      [Place] records.  Every [Place] object of the script is reachable
      through exactly one key of [places], so updating the map at a key is
      the mutation of the object stored there.
    - A Python exception is a value of [error]; code that may raise returns
      a [result]. *)

From Stdlib Require Import ZArith String Ascii List Lia.
From Stdlib Require Import Floats.SpecFloat.
From stdpp Require Import gmap strings list fin_maps sorting pretty.

Local Open Scope string_scope.
Local Open Scope list_scope.
Local Open Scope Z_scope.

(** ** Exceptions and results *)

Inductive error : Type :=
| OutOfRangeError
| ShapeMismatchError
| KeyError
| ZeroDivisionError
| AssertionError (msg : string)
| HTTPError (status_code : Z) (reason : string)
| ConnectionError
| IndexError
| FileNotFoundError
| OSError (errno : Z)
| SystemExit (code : Z).

Inductive result (A : Type) : Type :=
| Ok (a : A)
| Raise (e : error).
Arguments Ok {A} a.
Arguments Raise {A} e.

Global Instance result_ret : MRet result := λ A a, Ok a.
Global Instance result_bind : MBind result := λ A B f r,
  match r with
  | Ok a => f a
  | Raise e => Raise e
  end.

Definition is_Ok {A} (r : result A) : Prop := ∃ a, r = Ok a.

(** ** Dates *)

Abbreviation date := Z.

(** ** Time series *)

(** Modelled from the spec: the class [TimeSeries] of [util/time_series.py],
    which is not part of the sources here.  A fixed start date and a dense
    sequence of values, one per calendar day; [date_to_position] fails with
    [OutOfRangeError] when the date precedes the start or lies beyond the
    last position; reading and writing by date go through
    [date_to_position]; element-wise addition requires equal start dates and
    lengths and fails with [ShapeMismatchError] otherwise. *)
Record TimeSeries (A : Type) : Type := mkTimeSeries {
  start_date : date;
  values : list A
}.
Arguments mkTimeSeries {A} _ _.
Arguments start_date {A} _.
Arguments values {A} _.

(** A date that a series covers. *)
Definition in_range {A} (ts : TimeSeries A) (d : date) : Prop :=
  start_date ts ≤ d < start_date ts + Z.of_nat (length (values ts)).

Global Instance in_range_dec {A} (ts : TimeSeries A) d :
  Decision (in_range ts d).
Proof. unfold in_range. apply _. Defined.

Definition date_to_position {A} (ts : TimeSeries A) (d : date) : result nat :=
  if d <? start_date ts then Raise OutOfRangeError
  else if Z.of_nat (length (values ts)) <=? d - start_date ts
       then Raise OutOfRangeError
       else Ok (Z.to_nat (d - start_date ts)).

Definition ts_get {A} (ts : TimeSeries A) (d : date) : result A :=
  pos ← date_to_position ts d;
  match values ts !! pos with
  | Some v => Ok v
  | None => Raise OutOfRangeError
  end.

Definition ts_set {A} (ts : TimeSeries A) (d : date) (v : A)
  : result (TimeSeries A) :=
  pos ← date_to_position ts d;
  Ok (mkTimeSeries (start_date ts) (<[pos := v]> (values ts))).

Definition ts_iadd (a b : TimeSeries Z) : result (TimeSeries Z) :=
  if bool_decide (start_date a = start_date b
                  ∧ length (values a) = length (values b))
  then Ok (mkTimeSeries (start_date a) (zip_with Z.add (values a) (values b)))
  else Raise ShapeMismatchError.

(** The series [TimeSeries(start, [0]*n)] over a date range. *)
Definition ts_zeros (dates : list date) : TimeSeries Z :=
  mkTimeSeries (default 0 (head dates)) (replicate (length dates) 0).

(** The value at a position, [0] beyond the end. *)
Definition at_pos (l : list Z) (i : nat) : Z := default 0 (l !! i).

(** ** Places *)

Abbreviation PlaceKey := (string * string * string)%type.

Definition country_of (k : PlaceKey) : string := k.1.1.
Definition province_of (k : PlaceKey) : string := k.1.2.
Definition district_of (k : PlaceKey) : string := k.2.

(** Modelled from the spec: the class [Place] of [util/place.py], which is
    not part of the sources here.  The attributes the driver reads and
    writes: the key (set by [set_key]), the optional population and
    coordinates, the intervention history (unset until the driver attaches
    one) and the three count series, zero-initialised over the date range
    by the constructor [Place(dates)]. *)
Record Place : Type := mkPlace {
  key : option PlaceKey;
  population : option Z;
  latitude : option string;
  longitude : option string;
  interventions : option (TimeSeries string);
  confirmed : TimeSeries Z;
  deaths : TimeSeries Z;
  recovered : TimeSeries Z
}.

Definition new_Place (dates : list date) : Place :=
  mkPlace None None None None None
          (ts_zeros dates) (ts_zeros dates) (ts_zeros dates).

Definition set_key (k : PlaceKey) (p : Place) : Place :=
  mkPlace (Some k) (population p) (latitude p) (longitude p)
          (interventions p) (confirmed p) (deaths p) (recovered p).

Definition set_population (n : Z) (p : Place) : Place :=
  mkPlace (key p) (Some n) (latitude p) (longitude p)
          (interventions p) (confirmed p) (deaths p) (recovered p).

Definition set_interventions (i : TimeSeries string) (p : Place) : Place :=
  mkPlace (key p) (population p) (latitude p) (longitude p)
          (Some i) (confirmed p) (deaths p) (recovered p).

(** The three count series, addressed by name. *)
Inductive metric : Type := Confirmed | Deaths | Recovered.

Global Instance metric_eq_dec : EqDecision metric.
Proof. solve_decision. Defined.

Definition series_of (m : metric) (p : Place) : TimeSeries Z :=
  match m with
  | Confirmed => confirmed p
  | Deaths => deaths p
  | Recovered => recovered p
  end.

Definition set_series (m : metric) (ts : TimeSeries Z) (p : Place) : Place :=
  match m with
  | Confirmed =>
      mkPlace (key p) (population p) (latitude p) (longitude p)
              (interventions p) ts (deaths p) (recovered p)
  | Deaths =>
      mkPlace (key p) (population p) (latitude p) (longitude p)
              (interventions p) (confirmed p) ts (recovered p)
  | Recovered =>
      mkPlace (key p) (population p) (latitude p) (longitude p)
              (interventions p) (confirmed p) (deaths p) ts
  end.

(** [places[k]]: a missing key raises [KeyError]. *)
Definition places_get (places : gmap PlaceKey Place) (k : PlaceKey)
  : result Place :=
  match places !! k with
  | Some p => Ok p
  | None => Raise KeyError
  end.

(** ** The misattribution fix *)

(** One assignment [places[dst].m[d_dst] = places[src].m[d_src]]. *)
Definition copy_cell (m : metric) (dst : PlaceKey) (d_dst : date)
    (src : PlaceKey) (d_src : date) (places : gmap PlaceKey Place)
  : result (gmap PlaceKey Place) :=
  s ← places_get places src;
  v ← ts_get (series_of m s) d_src;
  t ← places_get places dst;
  ts ← ts_set (series_of m t) d_dst v;
  Ok (<[dst := set_series m ts t]> places).

(** [correct_misrecorded_place(d, correct_p, recorded_p)]. *)
Definition correct_misrecorded_place (d : date)
    (correct_p recorded_p : PlaceKey) (places : gmap PlaceKey Place) : result (gmap PlaceKey Place) :=
  _ ← places_get places correct_p;
  _ ← places_get places recorded_p;
  let prev_d := d - 1 in
  places ← copy_cell Confirmed correct_p d recorded_p d places;
  places ← copy_cell Deaths correct_p d recorded_p d places;
  places ← copy_cell Recovered correct_p d recorded_p d places;
  places ← copy_cell Confirmed recorded_p d recorded_p prev_d places;
  places ← copy_cell Deaths recorded_p d recorded_p prev_d places;
  copy_cell Recovered recorded_p d recorded_p prev_d places.

(** ** Sorting keys *)

(** Python compares tuples of strings lexicographically, and strings by
    code point; on UTF-8 bytes that is the byte-wise order. *)
Definition key_compare (a b : PlaceKey) : comparison :=
  match String.compare (country_of a) (country_of b) with
  | Eq =>
      match String.compare (province_of a) (province_of b) with
      | Eq => String.compare (district_of a) (district_of b)
      | c => c
      end
  | c => c
  end.

Definition key_le (a b : PlaceKey) : Prop := key_compare a b ≠ Gt.

Global Instance key_le_dec : RelDecision key_le.
Proof. intros a b. unfold key_le. apply _. Defined.

(** [sorted(m.keys())]. *)
Definition sorted_keys {V} (m : gmap PlaceKey V) : list PlaceKey :=
  merge_sort key_le (fst <$> map_to_list m).

(** A [for] loop over a list whose body may raise. *)
Fixpoint for_each {A S} (body : S → A → result S) (l : list A) (s : S)
  : result S :=
  match l with
  | [] => Ok s
  | x :: l' => s' ← body s x; for_each body l' s'
  end.

(** ** County-to-state consolidation *)

(** [places[state].m += places[p].m]. *)
Definition add_series (m : metric) (state p : PlaceKey)
    (places : gmap PlaceKey Place) : result (gmap PlaceKey Place) :=
  st ← places_get places state;
  pl ← places_get places p;
  ts ← ts_iadd (series_of m st) (series_of m pl);
  Ok (<[state := set_series m ts st]> places).

Section Consolidate.
Variable dates : list date.
Variable population_table : gmap PlaceKey Z.
Variable intervention_unknown : TimeSeries string.

(** The block under [if state not in places]: the new state-level place,
    with the population assignment on [places[p]] as the source has
    it. *)
Definition create_state (state p : PlaceKey)
    (places : gmap PlaceKey Place) : result (gmap PlaceKey Place) :=
  let places := <[state := new_Place dates]> places in
  st ← places_get places state;
  let places := <[state := set_key state st]> places in
  places ←
    match population_table !! p with
    | Some n =>
        pl ← places_get places p;
        Ok (<[p := set_population n pl]> places)
    | None => Ok places
    end;
  st ← places_get places state;
  Ok (<[state := set_interventions intervention_unknown st]> places).

(** The three [+=] and the [del places[p]]. *)
Definition fold_into_state (state p : PlaceKey)
    (places : gmap PlaceKey Place) : result (gmap PlaceKey Place) :=
  places ← add_series Confirmed state p places;
  places ← add_series Deaths state p places;
  places ← add_series Recovered state p places;
  _ ← places_get places p;
  Ok (delete p places).

(** The body of the loop of [consolidate_to_province_level]. *)
Definition consolidate_one (country : string)
    (places : gmap PlaceKey Place) (p : PlaceKey)
  : result (gmap PlaceKey Place) :=
  if bool_decide (country_of p = country ∧ district_of p ≠ "") then
    let state := (country_of p, province_of p, "") in
    places ←
      match places !! state with
      | Some _ => Ok places
      | None => create_state state p places
      end;
    fold_into_state state p places
  else Ok places.

Definition consolidate_to_province_level (country : string)
    (places : gmap PlaceKey Place) : result (gmap PlaceKey Place) :=
  for_each (consolidate_one country) (sorted_keys places) places.
End Consolidate.

(** ** The retroactive rescaling correction *)

(** Python's [float] and numpy's [float64] are IEEE 754 binary64. *)
Definition prec : Z := 53.
Definition emax : Z := 1024.

(** The conversion of an integer to the nearest binary64 number. *)
Definition float_of_int (z : Z) : spec_float :=
  binary_normalize prec emax z 0 false.

(** [a / b] on two counts.  The quotient is a float; a zero divisor raises
    [ZeroDivisionError]. *)
Definition true_div (a b : Z) : result spec_float :=
  if b =? 0 then Raise ZeroDivisionError
  else Ok (SFdiv prec emax (float_of_int a) (float_of_int b)).

(** [x.astype(int)]: the conversion of a float64 to a 64-bit integer, which
    drops the fraction.  A float whose integer part is no 64-bit integer, an
    infinity or a NaN gives the least 64-bit integer, as the conversion
    instruction of x86-64 does. *)
Definition astype_int (x : spec_float) : Z :=
  match x with
  | S754_zero _ => 0
  | S754_finite s m e =>
      let magnitude :=
        if 0 <=? e then Z.pos m * 2 ^ e else Z.pos m / 2 ^ (- e) in
      let z := if s then - magnitude else magnitude in
      if bool_decide (- 2 ^ 63 ≤ z < 2 ^ 63) then z else - 2 ^ 63
  | S754_infinity _ | S754_nan => - 2 ^ 63
  end.

(** One element of [array * scaling_factor] followed by [.astype(int)]. *)
Definition rescale (scaling_factor : spec_float) (x : Z) : Z :=
  astype_int (SFmul prec emax (float_of_int x) scaling_factor).

(** [correct_late_reporting(p, d)]. *)
Definition correct_late_reporting (p : PlaceKey) (d : date)
    (places : gmap PlaceKey Place) : result (gmap PlaceKey Place) :=
  place ← places_get places p;
  let prev_d := d - 1 in
  a ← ts_get (deaths place) d;
  b ← ts_get (deaths place) prev_d;
  scaling_factor ← true_div a b;
  pos ← date_to_position (deaths place) d;
  let arr := values (deaths place) in
  let new_deaths := rescale scaling_factor <$> take pos arr in
  let arr' := new_deaths ++ drop pos arr in
  Ok (<[p := set_series Deaths (mkTimeSeries (start_date (deaths place)) arr')
                        place]> places).

(** ** The place-name canonicalizer *)

(** Modelled from the spec: the class [PlaceRecon] of [util/recon.py], which
    is not part of the sources here.  A rename rule substitutes its target
    and is recorded as used; otherwise a drop rule yields [None]; otherwise
    the key passes through.  A returned key whose country is not recognised
    is recorded in [unrecognized_countries] and returned all the same. *)
Record PlaceRecon : Type := mkPlaceRecon {
  place_renames : gmap PlaceKey PlaceKey;
  place_drops : gset PlaceKey;
  known_countries : gset string;
  used_renames : gset PlaceKey;
  unrecognized_countries : gset string
}.

Definition note_country (k : PlaceKey) (recon : PlaceRecon) : PlaceRecon :=
  if bool_decide (country_of k ∈ known_countries recon) then recon
  else mkPlaceRecon (place_renames recon) (place_drops recon)
         (known_countries recon) (used_renames recon)
         ({[country_of k]} ∪ unrecognized_countries recon).

Definition note_used (raw : PlaceKey) (recon : PlaceRecon) : PlaceRecon :=
  mkPlaceRecon (place_renames recon) (place_drops recon)
    (known_countries recon) ({[raw]} ∪ used_renames recon)
    (unrecognized_countries recon).

Definition canonicalize (recon : PlaceRecon) (raw : PlaceKey)
  : option PlaceKey * PlaceRecon :=
  match place_renames recon !! raw with
  | Some target => (Some target, note_country target (note_used raw recon))
  | None =>
      if bool_decide (raw ∈ place_drops recon) then (None, recon)
      else (Some raw, note_country raw recon)
  end.

(** ** Re-keying the population and intervention tables *)

(** The loop that builds [new_population]; [items] is
    [population.items()]. *)
Fixpoint rekey_population (recon : PlaceRecon) (items : list (PlaceKey * Z))
    (new_population : gmap PlaceKey Z) : gmap PlaceKey Z * PlaceRecon :=
  match items with
  | [] => (new_population, recon)
  | (k, v) :: rest =>
      let '(k', recon) := canonicalize recon k in
      match k' with
      | Some k' => rekey_population recon rest (<[k' := v]> new_population)
      | None => rekey_population recon rest new_population
      end
  end.

(** The comprehension [{recon.canonicalize(k): v for k, v in
    interventions.items()}]: its keys are whatever [canonicalize] returns,
    [None] included. *)
Fixpoint rekey_interventions {V} (recon : PlaceRecon)
    (items : list (PlaceKey * V)) (acc : gmap (option PlaceKey) V)
  : gmap (option PlaceKey) V * PlaceRecon :=
  match items with
  | [] => (acc, recon)
  | (k, v) :: rest =>
      let '(k', recon) := canonicalize recon k in
      rekey_interventions recon rest (<[k' := v]> acc)
  end.

(** ** The intervention table *)

(** What [csv_as_dicts] yields: the header names and one mapping per row. *)
Record CsvSource : Type := mkCsvSource {
  headers : list string;
  rows : list (gmap string string)
}.

(** [row[s]]. *)
Definition row_get (row : gmap string string) (s : string) : result string :=
  match row !! s with
  | Some v => Ok v
  | None => Raise KeyError
  end.

Definition col_compare (a b : date * string) : comparison :=
  match a.1 ?= b.1 with
  | Eq => String.compare a.2 b.2
  | c => c
  end.

Definition col_le (a b : date * string) : Prop := col_compare a b ≠ Gt.

Global Instance col_le_dec : RelDecision col_le.
Proof. intros a b. unfold col_le. apply _. Defined.

(** The assertion over [zip(date_cols, date_cols[1:])]. *)
Fixpoint check_consecutive (date_cols : list (date * string)) : result unit :=
  match date_cols with
  | d :: ((d2 :: _) as rest) =>
      if d2.1 - d.1 =? 1 then check_consecutive rest
      else Raise (AssertionError
                    "Dates must be consecutive.  Did a column get deleted?")
  | _ => Ok tt
  end.

(** The inner loop over [date_cols] for one row: the test that selects
    [prev_state] is on the column name [s]. *)
Fixpoint intervention_cells (row : gmap string string)
    (date_cols : list (date * string))
    (intervention_list : list string) (prev_state : string)
  : result (list string) :=
  match date_cols with
  | [] => Ok intervention_list
  | (d, s) :: rest =>
      cell ← row_get row s;
      if bool_decide (s = "")
      then intervention_cells row rest (intervention_list ++ [prev_state])
             prev_state
      else intervention_cells row rest (intervention_list ++ [cell]) cell
  end.

(** [k in d] and [d[k] = v] on a dictionary kept in insertion order. *)
Definition dict_mem {K V} `{EqDecision K} (k : K) (d : list (K * V)) : bool :=
  bool_decide (k ∈ d.*1).

Fixpoint dict_set {K V} `{EqDecision K} (k : K) (v : V) (d : list (K * V))
  : list (K * V) :=
  match d with
  | [] => [(k, v)]
  | (k', v') :: rest =>
      if decide (k' = k) then (k, v) :: rest else (k', v') :: dict_set k v rest
  end.

Section Interventions.
(** [ud.parse_date], from [util/date.py]. *)
Variable parse_date : string → option date.

Definition date_cols_of (hs : list string) : list (date * string) :=
  merge_sort col_le (omap (λ s, d ← parse_date s; Some (d, s)) hs).

Definition intervention_rows (start : date)
    (date_cols : list (date * string))
  : list (PlaceKey * TimeSeries string) → gmap string string →
    result (list (PlaceKey * TimeSeries string)) :=
  λ interventions row,
    country ← row_get row "Country/Region";
    province ← row_get row "Province/State";
    let place := (country, province, "") in
    if dict_mem place interventions
    then Raise (AssertionError "Duplicate row for place")
    else
      intervention_list ←
        intervention_cells row date_cols [] "No Intervention";
      Ok (dict_set place (mkTimeSeries start intervention_list) interventions).

(** [fetch_fetch_intervention_data], from the parsed table on. *)
Definition fetch_intervention_data (csv_source : CsvSource)
  : result (list (PlaceKey * TimeSeries string) * TimeSeries string) :=
  let date_cols := date_cols_of (headers csv_source) in
  _ ← check_consecutive date_cols;
  match date_cols with
  | [] => Raise IndexError
  | first :: _ =>
      let start := first.1 in
      let unknown :=
        mkTimeSeries start (replicate (length date_cols) "Unknown") in
      interventions ←
        for_each (intervention_rows start date_cols) (rows csv_source) [];
      Ok (interventions, unknown)
  end.
End Interventions.

(** The reading of an intervention row that the table's documentation
    gives: an empty cell carries the previous non-empty value forward,
    ['No Intervention'] before the first one. *)
Fixpoint carry_forward (prev_state : string) (cells : list string)
  : list string :=
  match cells with
  | [] => []
  | cell :: rest =>
      if bool_decide (cell = "")
      then prev_state :: carry_forward prev_state rest
      else cell :: carry_forward cell rest
  end.

(** ** Coverage warnings *)

(** [sorted(places.items())]: the keys are distinct, so the pairs are
    ordered by key. *)
Definition sorted_items {V} (m : gmap PlaceKey V) : list (PlaceKey * V) :=
  omap (λ k, v ← m !! k; Some (k, v)) (sorted_keys m).

Definition is_None {A} (o : option A) : bool :=
  match o with
  | None => true
  | Some _ => false
  end.

(** The population warning loop; a printed line is the pair of the
    arguments of [print]. *)
Definition population_warnings (places : gmap PlaceKey Place)
  : list (string * PlaceKey) :=
  omap (λ kp : PlaceKey * Place,
          if negb (is_None (population kp.2))
          then Some ("No Population Data: ", kp.1)
          else None)
       (sorted_items places).

(** ** Calendar dates and their formatting *)

Definition DAYS_BEFORE_MONTH : list Z :=
  [0; 0; 31; 59; 90; 120; 151; 181; 212; 243; 273; 304; 334].
Definition DAYS_IN_MONTH : list Z :=
  [0; 31; 28; 31; 30; 31; 30; 31; 31; 30; 31; 30; 31].

(** Year, month and day of an ordinal, as [datetime.date.fromordinal]
    computes them. *)
Definition ord2ymd (n : Z) : Z * Z * Z :=
  let n := n - 1 in
  let n400 := n / 146097 in
  let n := n mod 146097 in
  let year := n400 * 400 + 1 in
  let n100 := n / 36524 in
  let n := n mod 36524 in
  let n4 := n / 1461 in
  let n := n mod 1461 in
  let n1 := n / 365 in
  let n := n mod 365 in
  let year := year + n100 * 100 + n4 * 4 + n1 in
  if (n1 =? 4) || (n100 =? 4) then (year - 1, 12, 31)
  else
    let leapyear := (n1 =? 3) && (negb (n4 =? 24) || (n100 =? 3)) in
    let month := Z.shiftr (n + 50) 5 in
    let preceding :=
      at_pos DAYS_BEFORE_MONTH (Z.to_nat month)
      + (if (2 <? month) && leapyear then 1 else 0) in
    if n <? preceding then
      let month := month - 1 in
      let preceding :=
        preceding - (at_pos DAYS_IN_MONTH (Z.to_nat month)
                     + (if (month =? 2) && leapyear then 1 else 0)) in
      (year, month, n - preceding + 1)
    else (year, month, n - preceding + 1).

Definition year_of (d : date) : Z := (ord2ymd d).1.1.
Definition month_of (d : date) : Z := (ord2ymd d).1.2.
Definition day_of (d : date) : Z := (ord2ymd d).2.

Definition digit (n : Z) : ascii :=
  ascii_of_nat (48 + Z.to_nat (n mod 10)).

(** A number in two and in four decimal digits, zero-padded. *)
Definition pad2 (n : Z) : string :=
  String (digit (n / 10)) (String (digit n) "").
Definition pad4 (n : Z) : string :=
  String (digit (n / 1000)) (String (digit (n / 100)) (pad2 n)).

(** One [strftime] directive. *)
Definition directive (c : ascii) (d : date) : string :=
  if bool_decide (c = "m"%char) then pad2 (month_of d)
  else if bool_decide (c = "d"%char) then pad2 (day_of d)
  else if bool_decide (c = "Y"%char) then pad4 (year_of d)
  else if bool_decide (c = "y"%char) then pad2 (year_of d mod 100)
  else if bool_decide (c = "%"%char) then "%"
  else String "%" (String c "").

(** [d.strftime(fmt)] for the directives the script uses. *)
Fixpoint strftime (fmt : string) (d : date) : string :=
  match fmt with
  | EmptyString => ""
  | String c rest =>
      if bool_decide (c = "%"%char) then
        match rest with
        | String c' rest' => directive c' d +:+ strftime rest' d
        | EmptyString => "%"
        end
      else String c (strftime rest d)
  end.

(** [d.isoformat()]. *)
Definition isoformat (d : date) : string :=
  pad4 (year_of d) +:+ "-" +:+ pad2 (month_of d) +:+ "-" +:+ pad2 (day_of d).

(** ** Fetching *)

(** The [cache] argument of [fetch]: a flag or a maximal age. *)
Inductive cache_policy : Type :=
| CacheFlag (b : bool)
| CacheAge (age : Z).

Record Response : Type := mkResponse {
  status_code : Z;
  reason : string;
  text : string
}.

(** What the disk can refuse for a path: to make the directory of the file;
    to open the file for writing; to take more than the first [written]
    characters of a text, either with an error of [write], or without one,
    when the file is closed. *)
Inductive disk_fault : Type :=
| MkdirFails (errno : Z)
| OpenFails (errno : Z)
| WriteFails (errno : Z) (written : nat)
| CloseFails (written : nat).

(** What the loaders touch: the files (modification time and text), the
    clock, the lines printed so far, and what the disk refuses.  A path
    holds a text file that can be read, or nothing.  The locale's encoding
    is taken to be UTF-8, which encodes every text of a response, and line
    ends are written as they are, as on POSIX; the part of a text that a
    failing write leaves is taken to end at a character. *)
Record World : Type := mkFaultyWorld {
  files : gmap string (Z * string);
  now : Z;
  stdout : list string;
  faults : string → option disk_fault
}.

(** A world whose disk refuses nothing. *)
Definition mkWorld (fs : gmap string (Z * string)) (clock : Z)
    (out : list string) : World :=
  mkFaultyWorld fs clock out (λ _, None).

Definition print (line : string) (w : World) : World :=
  mkFaultyWorld (files w) (now w) (stdout w ++ [line]) (faults w).

(** The file at [path] with a new text, modified now. *)
Definition set_file (path contents : string) (w : World) : World :=
  mkFaultyWorld (<[path := (now w, contents)]> (files w)) (now w) (stdout w)
                (faults w).

(** [Path(path).parent.mkdir(parents=True, exist_ok=True)].  Directories are
    not part of [files]. *)
Definition mkdir_parent (path : string) (w : World) : result unit :=
  match faults w path with
  | Some (MkdirFails errno) => Raise (OSError errno)
  | _ => Ok tt
  end.

(** [open(path, 'w').write(contents)], with the close of the file that
    follows as the file object is dropped.  [open] truncates the file;
    an error of [write] is raised; an error of the close is not, so that
    the text can be cut short with no exception. *)
Definition write_file (path contents : string) (w : World)
  : result unit * World :=
  match faults w path with
  | Some (OpenFails errno) => (Raise (OSError errno), w)
  | Some (WriteFails errno written) =>
      (Raise (OSError errno),
       set_file path (String.substring 0 written contents) w)
  | Some (CloseFails written) =>
      (Ok tt, set_file path (String.substring 0 written contents) w)
  | Some (MkdirFails _) | None => (Ok tt, set_file path contents w)
  end.

(** The text that a read in text mode gives for the text of a file: the
    line ends [CR LF] and [CR] become [LF]. *)
Fixpoint universal_newlines (s : string) : string :=
  match s with
  | EmptyString => EmptyString
  | String c rest =>
      if Ascii.eqb c "013" then
        match rest with
        | String c' rest' =>
            if Ascii.eqb c' "010"
            then String "010" (universal_newlines rest')
            else String "010" (universal_newlines rest)
        | EmptyString => String "010" EmptyString
        end
      else String c (universal_newlines rest)
  end.

(** [r.raise_for_status()]: client and server error codes raise. *)
Definition raise_for_status (r : Response) : result unit :=
  if (400 <=? status_code r) && (status_code r <? 600)
  then Raise (HTTPError (status_code r) (reason r))
  else Ok tt.

(** [os.path.join] of a directory and a relative file name. *)
Definition path_join (dir name : string) : string :=
  if bool_decide (dir = "") then name
  else if bool_decide (String.substring (String.length dir - 1) 1 dir = "/")
       then dir +:+ name
       else dir +:+ "/" +:+ name.

Section Fetch.
(** [requests.get]. *)
Variable http_get : string → result Response.
(** [args.JHU_url_format] and [args.JHU_data_dir]. *)
Variable JHU_url_format : string.
Variable JHU_data_dir : string.
(** [csv_as_dicts], from [util/csv.py], on the contents of a file. *)
Variable Rows : Type.
Variable csv_as_dicts : string → Rows.

Definition fetch (source_url dest_file : string) (cache : cache_policy)
    (verbose : bool) (w : World) : result string * World :=
  let download : result bool :=
    match files w !! dest_file with
    | Some (mtime, _) =>
        Ok match cache with
           | CacheAge c => bool_decide (c ≤ now w - mtime)
           | CacheFlag b => negb b
           end
    | None => _ ← mkdir_parent dest_file w; Ok true
    end in
  match download with
  | Raise e => (Raise e, w)
  | Ok true =>
      let w :=
        if verbose
        then print ("Downloading: " +:+ source_url +:+ " ---> " +:+ dest_file)
                   w
        else w in
      match http_get source_url with
      | Raise e => (Raise e, w)
      | Ok r =>
          match raise_for_status r with
          | Raise e => (Raise e, w)
          | Ok _ =>
              match write_file dest_file (text r) w with
              | (Raise e, w) => (Raise e, w)
              | (Ok _, w) => (Ok (text r), w)
              end
          end
      end
  | Ok false =>
      match files w !! dest_file with
      | Some (_, contents) => (Ok (universal_newlines contents), w)
      | None => (Raise FileNotFoundError, w)
      end
  end.

(** The handler of [requests.exceptions.HTTPError] in
    [fetch_raw_jhu_data], up to [sys.exit(1)]. *)
Definition report_http_error (url : string) (d : date)
    (code : Z) (why : string) (w : World) : World :=
  let w := print ("Couldn't fetch: " +:+ url) w in
  let w := print ("The fetch failed with code " +:+ pretty code +:+ ": "
                  +:+ why) w in
  if code =? 404
  then print ("It seems JHU has not yet published the data for "
              +:+ isoformat d +:+ ".") w
  else w.

Fixpoint fetch_raw_jhu_loop (dates : list date)
    (jhu_data : list (date * Rows)) (w : World)
  : result (list (date * Rows)) * World :=
  match dates with
  | [] => (Ok jhu_data, w)
  | d :: rest =>
      let url := strftime JHU_url_format d in
      let file_path := path_join JHU_data_dir (isoformat d +:+ ".csv") in
      match fetch url file_path (CacheFlag true) true w with
      | (Raise (HTTPError code why), w) =>
          (Raise (SystemExit 1), report_http_error url d code why w)
      | (Raise e, w) => (Raise e, w)
      | (Ok _, w) =>
          match files w !! file_path with
          | Some (_, contents) =>
              fetch_raw_jhu_loop rest
                (dict_set d (csv_as_dicts contents) jhu_data) w
          | None => (Raise FileNotFoundError, w)
          end
      end
  end.

Definition fetch_raw_jhu_data (dates : list date) (w : World)
  : result (list (date * Rows)) * World :=
  fetch_raw_jhu_loop dates [] w.
End Fetch.

(** ** CSV output *)

Inductive cell : Type :=
| CStr (s : string)
| CInt (n : Z).

Definition csv_headers (dates : list date) : list cell :=
  CStr <$> (["Province/State"; "Country/Region"; "Lat"; "Long"]
            ++ (strftime "%m/%d/%y" <$> dates)).

(** [sum(ts)]. *)
Definition ts_sum (ts : TimeSeries Z) : Z := foldr Z.add 0 (values ts).

(** [row_start + list(places[p].m)]. *)
Definition csv_row (m : metric) (p : PlaceKey) (pl : Place) : list cell :=
  [CStr (province_of p); CStr (country_of p);
   CStr (default "" (latitude pl)); CStr (default "" (longitude pl))]
  ++ (CInt <$> values (series_of m pl)).

(** The keys of the loop that reach [writerow]. *)
Definition csv_kept (places : gmap PlaceKey Place) : list (PlaceKey * Place) :=
  filter (λ kp : PlaceKey * Place,
            district_of kp.1 = "" ∧ ts_sum (confirmed kp.2) ≠ 0)
         (sorted_items places).

(** The rows written to one of the three files. *)
Definition csv_file (m : metric) (dates : list date)
    (places : gmap PlaceKey Place) : list (list cell) :=
  csv_headers dates :: ((λ kp, csv_row m kp.1 kp.2) <$> csv_kept places).

(** The block under [if args.output_csvs]: the contents of
    [time_series_confirmed.csv], [time_series_deaths.csv] and
    [time_series_recovered.csv], when they are written. *)
Definition output_csvs (enabled : bool) (dates : list date)
    (places : gmap PlaceKey Place)
  : option (list (list cell) * list (list cell) * list (list cell)) :=
  if enabled
  then Some (csv_file Confirmed dates places, csv_file Deaths dates places,
             csv_file Recovered dates places)
  else None.

(** ** Vocabulary of the statements *)

(** Two places whose series have the same start dates and lengths. *)
Definition same_shape (t t' : Place) : Prop :=
  ∀ m, start_date (series_of m t') = start_date (series_of m t)
       ∧ length (values (series_of m t')) = length (values (series_of m t)).

(** The three series of a place span the date range [dates]. *)
Definition has_shape (dates : list date) (pl : Place) : Prop :=
  ∀ m, start_date (series_of m pl) = default 0 (head dates)
       ∧ length (values (series_of m pl)) = length dates.

Definition all_shaped (dates : list date) (places : gmap PlaceKey Place)
  : Prop :=
  ∀ k pl, places !! k = Some pl → has_shape dates pl.

(** A district-level key of a province of a country. *)
Definition is_district_of (country province : string) (k : PlaceKey) : Prop :=
  country_of k = country ∧ province_of k = province ∧ district_of k ≠ "".

Global Instance is_district_of_dec country province k :
  Decision (is_district_of country province k).
Proof. unfold is_district_of. apply _. Defined.

(** The sum over the entries of a map. *)
Definition map_sum {V} (g : PlaceKey → V → Z) (m : gmap PlaceKey V) : Z :=
  map_fold (λ k v acc, g k v + acc) 0 m.

(** The value at position [i] of a place's series [m] when the key is a
    district of the province, [0] otherwise. *)
Definition district_term (m : metric) (country province : string) (i : nat)
    (k : PlaceKey) (pl : Place) : Z :=
  if decide (is_district_of country province k)
  then at_pos (values (series_of m pl)) i
  else 0.

(** The sum at position [i] of the series [m] of all districts of a
    province. *)
Definition district_sum_at (m : metric) (country province : string) (i : nat)
    (places : gmap PlaceKey Place) : Z :=
  map_sum (district_term m country province i) places.

(** The state-level value at position [i], [0] when there is no state-level
    place. *)
Definition state_at (m : metric) (state : PlaceKey) (i : nat)
    (places : gmap PlaceKey Place) : Z :=
  match places !! state with
  | Some st => at_pos (values (series_of m st)) i
  | None => 0
  end.

Global Instance has_shape_dec dates pl : Decision (has_shape dates pl).
Proof.
  refine (match decide
            (Forall (λ m, start_date (series_of m pl) = default 0 (head dates)
                          ∧ length (values (series_of m pl)) = length dates)
                    [Confirmed; Deaths; Recovered])
          with
          | left Hyes => left _
          | right Hno => right _
          end); unfold has_shape.
  - intros m. apply (proj1 (Forall_forall _ _) Hyes m).
    destruct m; set_solver.
  - intros H. apply Hno. apply Forall_forall. intros m _. apply H.
Defined.

Global Instance all_shaped_dec dates places :
  Decision (all_shaped dates places).
Proof.
  unfold all_shaped.
  apply (map_Forall_dec (λ _ pl, has_shape dates pl)).
Defined.

(** The series [m] of [st] after [st.m += pl.m]. *)
Definition added (m : metric) (st pl : Place) : TimeSeries Z :=
  mkTimeSeries (start_date (series_of m st))
    (zip_with Z.add (values (series_of m st)) (values (series_of m pl))).

(** A state-level place after the three series of [pl] are added to it. *)
Definition merged (st pl : Place) : Place :=
  set_series Recovered (added Recovered st pl)
    (set_series Deaths (added Deaths st pl)
       (set_series Confirmed (added Confirmed st pl) st)).

(** The state-level place that [create_state] leaves in the map. *)
Definition fresh_state (dates : list date)
    (intervention_unknown : TimeSeries string) (state : PlaceKey) : Place :=
  set_interventions intervention_unknown (set_key state (new_Place dates)).

(** The district-level place after [create_state]. *)
Definition touched_district (population_table : gmap PlaceKey Z)
    (p : PlaceKey) (pl : Place) : Place :=
  match population_table !! p with
  | Some n => set_population n pl
  | None => pl
  end.

(** The confirmed series of the places of a map, in key order. *)
Definition confirmed_table (places : gmap PlaceKey Place)
  : list (PlaceKey * list Z) :=
  (λ kp : PlaceKey * Place, (kp.1, values (confirmed kp.2)))
    <$> sorted_items places.

(** The cells of a row under the date columns, as they are. *)
Definition raw_cells (row : gmap string string)
    (date_cols : list (date * string)) : list string :=
  (λ ds : date * string, default "" (row !! ds.2)) <$> date_cols.

(** The key that [canonicalize] returns. *)
Definition canonical (recon : PlaceRecon) (raw : PlaceKey) : option PlaceKey :=
  (canonicalize recon raw).1.

(** Two rule sets with the same rules, whatever their diagnostic sets. *)
Definition same_rules (r1 r2 : PlaceRecon) : Prop :=
  place_renames r1 = place_renames r2 ∧ place_drops r1 = place_drops r2.

(** ** Example data *)

Definition mk_counts (start : date) (c d r : list Z) : Place :=
  mkPlace None None None None None
          (mkTimeSeries start c) (mkTimeSeries start d) (mkTimeSeries start r).

Definition france : PlaceKey := ("France", "", "").
Definition french_polynesia : PlaceKey := ("French Polynesia", "", "").
Definition france_counts : Place :=
  mk_counts 737506 [10; 10; 30] [1; 1; 3] [0; 0; 2].
Definition french_polynesia_counts : Place :=
  mk_counts 737506 [5; 25; 6] [0; 2; 0] [0; 1; 0].

(** The two places around 2020-03-23 (ordinal 737507). *)
Definition march_places : gmap PlaceKey Place :=
  <[france := france_counts]>
    (<[french_polynesia := french_polynesia_counts]> ∅).

Definition hubei : PlaceKey := ("China", "Hubei", "").

(** Hubei from 2020-04-15 (ordinal 737530) to 2020-04-18, with the jump of
    the deaths count on 2020-04-17 (ordinal 737532). *)
Definition hubei_places : gmap PlaceKey Place :=
  {[ hubei := mk_counts 737530 [100; 100; 100; 101] [10; 20; 30; 30]
                        [7; 8; 9; 9] ]}.

(** The rescaling as the specification words it: the value multiplied by
    the ratio [a / b], a rational number, and truncated toward zero. *)
Definition exact_rescale (a b v : Z) : Z := (v * a) ÷ b.

(** Hubei with 11 deaths on 2020-04-16 and 15 on 2020-04-17. *)
Definition uneven_hubei_places : gmap PlaceKey Place :=
  {[ hubei := mk_counts 737531 [100; 100] [11; 15] [0; 0] ]}.


Definition two_days : list date := [737446; 737447].

Definition counts_of (c : list Z) : Place :=
  mk_counts 737446 c [0; 0] [0; 0].

(** New York with a state-level place and two counties, Ohio with one
    county only, and a place of another country. *)
Definition us_places : gmap PlaceKey Place :=
  <[("United States", "New York", "") := counts_of [10; 20]]>
  (<[("United States", "New York", "Kings") := counts_of [1; 2]]>
  (<[("United States", "New York", "Queens") := counts_of [3; 4]]>
  (<[("United States", "Ohio", "Franklin") := counts_of [5; 6]]>
  (<[("Canada", "Ontario", "Toronto") := counts_of [7; 8]]> ∅)))).

Definition no_interventions : TimeSeries string :=
  mkTimeSeries 737446 ["Unknown"; "Unknown"].

(** One county of Ohio, with no state-level place, and a population table
    that knows the county. *)
Definition franklin : PlaceKey := ("United States", "Ohio", "Franklin").
Definition ohio : PlaceKey := ("United States", "Ohio", "").

Definition franklin_places : gmap PlaceKey Place :=
  {[ franklin := mk_counts 737446 [5; 6] [0; 1] [0; 0] ]}.

Definition franklin_population : gmap PlaceKey Z :=
  {[ franklin := 1316756 ]}.

(** [places[k].population], when the run succeeds and the key is there. *)
Definition population_at (k : PlaceKey)
    (r : result (gmap PlaceKey Place)) : option (option Z) :=
  match r with
  | Ok places => population <$> places !! k
  | Raise _ => None
  end.

(** An intervention table with three consecutive date columns and one
    row. *)
Definition march_parse_date (s : string) : option date :=
  if bool_decide (s = "2020-03-01") then Some 737485
  else if bool_decide (s = "2020-03-02") then Some 737486
  else if bool_decide (s = "2020-03-03") then Some 737487
  else None.

Definition lockdown_row : gmap string string :=
  <["Country/Region" := "Italy"]>
  (<["Province/State" := ""]>
  (<["2020-03-01" := "Lockdown"]>
  (<["2020-03-02" := ""]>
  (<["2020-03-03" := "Reopened"]> ∅)))).

Definition lockdown_table : CsvSource :=
  mkCsvSource
    ["Country/Region"; "Province/State";
     "2020-03-01"; "2020-03-02"; "2020-03-03"]
    [lockdown_row].

(** Two places, one with a population and one without. *)
Definition italy : PlaceKey := ("Italy", "", "").
Definition kosovo : PlaceKey := ("Kosovo", "", "").

Definition audit_places : gmap PlaceKey Place :=
  <[italy := set_population 60360000 (counts_of [1; 2])]>
  (<[kosovo := counts_of [3; 4]]> ∅).

(** A rule set that drops the unassigned bucket of the United States. *)
Definition unassigned : PlaceKey := ("US", "Unassigned", "").

Definition drop_unassigned : PlaceRecon :=
  mkPlaceRecon ∅ {[ unassigned ]} {[ "US"; "Italy" ]} ∅ ∅.

Definition raw_population : list (PlaceKey * Z) :=
  [(italy, 60360000); (unassigned, 12)].

Definition raw_interventions : list (PlaceKey * TimeSeries string) :=
  [(italy, no_interventions); (unassigned, no_interventions)].

(** The default of [--JHU_url_format], a server that answers 404 to every
    request, and a machine with no files. *)
Definition JHU_url_format_default : string :=
  "https://raw.githubusercontent.com/CSSEGISandData/COVID-19/master/csse_covid_19_data/csse_covid_19_daily_reports/%m-%d-%Y.csv".

Definition not_published (url : string) : result Response :=
  Ok (mkResponse 404 "Not Found" "404: Not Found").

Definition empty_world : World := mkWorld ∅ 0 [].

(** A date of the range in the CSV header: [MM/DD/YY]. *)
Definition mdy (d : date) : string :=
  pad2 (month_of d) +:+ "/" +:+ pad2 (day_of d) +:+ "/"
  +:+ pad2 (year_of d mod 100).

(** Places for the CSV output: a country, one of its districts, and a
    country with no confirmed case. *)
Definition csv_places : gmap PlaceKey Place :=
  <[italy := mk_counts 737446 [1; 2] [0; 1] [0; 0]]>
  (<[franklin := mk_counts 737446 [5; 6] [0; 1] [0; 0]]>
  (<[kosovo := mk_counts 737446 [0; 0] [0; 0] [0; 0]]> ∅)).

(** ** Vocabulary of the further properties *)

(** The file of a date in the directory of the daily reports. *)
Definition jhu_file_path (JHU_data_dir : string) (d : date) : string :=
  path_join JHU_data_dir (isoformat d +:+ ".csv").

(** The text of the report of a date in the cache, empty when absent. *)
Definition cached_text (JHU_data_dir : string) (w : World) (d : date)
  : string :=
  default "" (snd <$> files w !! jhu_file_path JHU_data_dir d).


(** A machine with the report of 2020-01-22 in the cache, one with the
    report of 2020-01-23 too, and a server that refuses the connection. *)
Definition one_cached : World :=
  mkWorld {[ "downloads/JHU/2020-01-22.csv" := (0, "a") ]} 7200 [].

Definition two_cached : World :=
  mkWorld (<["downloads/JHU/2020-01-23.csv" := (0, "b")]> (files one_cached))
          7200 [].

Definition refused (url : string) : result Response := Raise ConnectionError.

(** The key that [fetch_intervention_data] gives to a row. *)
Definition row_place (row : gmap string string) : PlaceKey :=
  (default "" (row !! "Country/Region"),
   default "" (row !! "Province/State"), "").

(** An intervention table whose columns skip 2020-03-02, and one with no
    date column. *)
Definition gap_table : CsvSource :=
  mkCsvSource ["Country/Region"; "Province/State"; "2020-03-03"; "2020-03-01"]
    [lockdown_row].

Definition dateless_table : CsvSource :=
  mkCsvSource ["Country/Region"; "Province/State"] [lockdown_row].

(** ** State-to-country consolidation *)

(** The body of the loop of [consolidate_to_country_level]; [target] is the
    object stored at the country-level key, which the loop never
    deletes. *)
Definition country_one (country : string)
    (places : gmap PlaceKey Place) (p : PlaceKey)
  : result (gmap PlaceKey Place) :=
  if bool_decide (country_of p = country ∧ province_of p ≠ "")
  then fold_into_state (country, "", "") p places
  else Ok places.

(** [consolidate_to_country_level(country)]. *)
Definition consolidate_to_country_level (country : string)
    (places : gmap PlaceKey Place) : result (gmap PlaceKey Place) :=
  _ ← places_get places (country, "", "");
  for_each (country_one country) (sorted_keys places) places.

(** The value at position [i] of a place's series [m] when the key is a
    province-level or district-level key of the country, [0] otherwise. *)
Definition below_term (m : metric) (country : string) (i : nat)
    (k : PlaceKey) (pl : Place) : Z :=
  if decide (country_of k = country ∧ province_of k ≠ "")
  then at_pos (values (series_of m pl)) i
  else 0.

(** The sum at position [i] of the series [m] of all the places below the
    country level. *)
Definition below_sum_at (m : metric) (country : string) (i : nat)
    (places : gmap PlaceKey Place) : Z :=
  map_sum (below_term m country i) places.

(** Germany with a country-level place and two provinces, and Germany with
    the provinces only. *)
Definition germany_places : gmap PlaceKey Place :=
  <[("Germany", "", "") := counts_of [0; 0]]>
  (<[("Germany", "Bavaria", "") := counts_of [10; 20]]>
  (<[("Germany", "Berlin", "") := counts_of [5; 15]]> ∅)).

Definition headless_germany : gmap PlaceKey Place :=
  <[("Germany", "Bavaria", "") := counts_of [10; 20]]>
  (<[("Germany", "Berlin", "") := counts_of [5; 15]]> ∅).

(** A date inside the date range. *)
Definition covers (dates : list date) (d : date) : Prop :=
  default 0 (head dates) ≤ d < default 0 (head dates) + Z.of_nat (length dates).

Global Instance covers_dec dates d : Decision (covers dates d).
Proof. unfold covers. apply _. Defined.

(** ** Merging the case reports *)

(** [first_present(d, ks)]. *)
Fixpoint first_present {V} (d : gmap string V) (ks : list string)
  : option V :=
  match ks with
  | [] => None
  | k :: ks' =>
      match d !! k with
      | Some v => Some v
      | None => first_present d ks'
      end
  end.

(** The fields that the merge loop reads from a row of a daily report. *)
Record JhuRow : Type := mkJhuRow {
  row_country : string;
  row_province : string;
  row_district : string;
  row_latitude : option string;
  row_longitude : option string;
  row_confirmed : option string;
  row_deaths : option string;
  row_recovered : option string
}.

(** The reading of the fields, by their names in the several eras of the
    feed; [district] is [first_present(...) or '']. A row with no country
    column or no province column has [None] in its key there; such a key
    is no triple of strings, and the row has no [JhuRow]. *)
Definition jhu_row (keyed_row : gmap string string) : option JhuRow :=
  country ← first_present keyed_row ["Country_Region"; "Country/Region"];
  province ← first_present keyed_row ["Province_State"; "Province/State"];
  Some (mkJhuRow country province
          (default "" (first_present keyed_row ["Admin2"]))
          (first_present keyed_row ["Lat"; "Latitude"])
          (first_present keyed_row ["Long_"; "Longitude"])
          (first_present keyed_row ["Confirmed"])
          (first_present keyed_row ["Deaths"])
          (first_present keyed_row ["Recovered"])).

Definition throw_away_places : gset PlaceKey :=
  {[ ("US", "US", ""); ("Australia", "", "");
     ("Canada", "Recovered", ""); ("US", "Recovered", "") ]}.

Definition set_coordinates (lat long : string) (p : Place) : Place :=
  mkPlace (key p) (population p) (Some lat) (Some long)
          (interventions p) (confirmed p) (deaths p) (recovered p).

(** The module-level variables that the merge loop updates. *)
Record MergeState : Type := mkMergeState {
  ms_places : gmap PlaceKey Place;
  ms_recon : PlaceRecon;
  interventions_recorded : gset PlaceKey;
  populations_recorded : gset PlaceKey;
  unknown_interventions_places : gset PlaceKey
}.

Definition merge_start (recon : PlaceRecon) : MergeState :=
  mkMergeState ∅ recon ∅ ∅ ∅.

Section Merge.
(** The conversion of the text of a cell that [Place.update] makes, which
    is not part of the sources here: a count, nothing (the cell is taken as
    missing), or an exception. *)
Variable count_of_cell : string → result (option Z).
Variable dates : list date.
Variable population_table : gmap PlaceKey Z.
Variable interventions_table : gmap (option PlaceKey) (TimeSeries string).
Variable intervention_unknown : TimeSeries string.

(** Modelled from the spec: the method [update] of [Place], which is not
    part of the sources here.  It sets the named series at the date to the
    value; a missing value leaves the series as it is. *)
Definition update (m : metric) (d : date) (value : option string)
    (pl : Place) : result Place :=
  match value with
  | None => Ok pl
  | Some cell =>
      v ← count_of_cell cell;
      match v with
      | None => Ok pl
      | Some n =>
          ts ← ts_set (series_of m pl) d n;
          Ok (set_series m ts pl)
      end
  end.

(** The place made under [if p not in places], with what the three sets
    record about it. *)
Definition create_place (p : PlaceKey) : Place :=
  let pl := set_key p (new_Place dates) in
  let pl :=
    match population_table !! p with
    | Some n => set_population n pl
    | None => pl
    end in
  match interventions_table !! Some p with
  | Some ts => set_interventions ts pl
  | None => set_interventions intervention_unknown pl
  end.

Definition record_created (p : PlaceKey) (st : MergeState) : MergeState :=
  mkMergeState (<[p := create_place p]> (ms_places st)) (ms_recon st)
    (if decide (is_Some (interventions_table !! Some p))
     then {[p]} ∪ interventions_recorded st
     else interventions_recorded st)
    (if decide (is_Some (population_table !! p))
     then {[p]} ∪ populations_recorded st
     else populations_recorded st)
    (if decide (is_Some (interventions_table !! Some p))
     then unknown_interventions_places st
     else {[p]} ∪ unknown_interventions_places st).

(** The body of the inner loop, for the row of a date. *)
Definition merge_row (d : date) (st : MergeState) (row : JhuRow)
  : result MergeState :=
  let p := (row_country row, row_province row, row_district row) in
  if bool_decide (p ∈ throw_away_places) then Ok st
  else
    let '(p, recon) := canonicalize (ms_recon st) p in
    let st := mkMergeState (ms_places st) recon (interventions_recorded st)
                (populations_recorded st) (unknown_interventions_places st) in
    match p with
    | None => Ok st
    | Some p =>
        let st :=
          match ms_places st !! p with
          | Some _ => st
          | None => record_created p st
          end in
        pl ← places_get (ms_places st) p;
        let pl :=
          match row_latitude row, row_longitude row with
          | Some lat, Some long => set_coordinates lat long pl
          | _, _ => pl
          end in
        pl ← update Confirmed d (row_confirmed row) pl;
        pl ← update Deaths d (row_deaths row) pl;
        pl ← update Recovered d (row_recovered row) pl;
        Ok (mkMergeState (<[p := pl]> (ms_places st)) (ms_recon st)
              (interventions_recorded st) (populations_recorded st)
              (unknown_interventions_places st))
    end.

(** The two nested loops over [raw_jhu_data.items()]. *)
Definition merge_case_data (raw_jhu_data : list (date * list JhuRow))
    (st : MergeState) : result MergeState :=
  for_each (λ st (day : date * list JhuRow),
              for_each (merge_row day.1) day.2 st)
           raw_jhu_data st.
End Merge.

(** The loop that prints [No Intervention Data]. *)
Definition intervention_warnings (places : gmap PlaceKey Place)
  : list (string * PlaceKey) :=
  omap (λ kp : PlaceKey * Place,
          if is_None (interventions kp.2)
          then Some ("No Intervention Data: ", kp.1)
          else None)
       (sorted_items places).

(** The loop that prints [Lost population data for]. *)
Definition lost_population_warnings (population_table : gmap PlaceKey Z)
    (recorded : gset PlaceKey) : list (string * PlaceKey) :=
  omap (λ p : PlaceKey,
          if decide (p ∈ recorded) then None
          else Some ("Lost population data for: ", p))
       (sorted_keys population_table).

(** The key of a row before canonicalization, and the key under which the
    merge loop files the row: none for a row of the deny list or a row that
    the canonicalizer drops. *)
Definition raw_key (row : JhuRow) : PlaceKey :=
  (row_country row, row_province row, row_district row).

Definition merged_key (recon : PlaceRecon) (row : JhuRow) : option PlaceKey :=
  if bool_decide (raw_key row ∈ throw_away_places) then None
  else canonical recon (raw_key row).

(** What the merge loop keeps true of a place stored under the key [p]. *)
Definition place_merged (dates : list date)
    (population_table : gmap PlaceKey Z)
    (interventions_table : gmap (option PlaceKey) (TimeSeries string))
    (intervention_unknown : TimeSeries string)
    (p : PlaceKey) (pl : Place) : Prop :=
  key pl = Some p
  ∧ has_shape dates pl
  ∧ population pl = population_table !! p
  ∧ interventions pl
    = Some (default intervention_unknown (interventions_table !! Some p)).

(** What the merge loop keeps true of its three sets. *)
Definition sets_merged (population_table : gmap PlaceKey Z)
    (interventions_table : gmap (option PlaceKey) (TimeSeries string))
    (st : MergeState) : Prop :=
  ∀ p,
    (p ∈ populations_recorded st
     ↔ is_Some (ms_places st !! p) ∧ is_Some (population_table !! p))
    ∧ (p ∈ interventions_recorded st
       ↔ is_Some (ms_places st !! p)
         ∧ is_Some (interventions_table !! Some p))
    ∧ (p ∈ unknown_interventions_places st
       ↔ is_Some (ms_places st !! p) ∧ interventions_table !! Some p = None).

(** A reading of a cell for the examples: the empty cell is missing, a
    cell of decimal digits is its number, any other cell is missing too. *)
Definition digit_value (c : ascii) : option Z :=
  let n := Z.of_nat (nat_of_ascii c) in
  if (48 <=? n) && (n <=? 57) then Some (n - 48) else None.

Fixpoint decimal_value (acc : Z) (s : string) : option Z :=
  match s with
  | EmptyString => Some acc
  | String c rest =>
      match digit_value c with
      | Some n => decimal_value (10 * acc + n) rest
      | None => None
      end
  end.

Definition example_count (cell : string) : result (option Z) :=
  if bool_decide (cell = "") then Ok None else Ok (decimal_value 0 cell).

(** Two daily reports: Italy on both days, the unassigned bucket and the
    row of the United States as a whole on the first. *)
Definition case_row (country province : string) (confirmed_cell : string)
  : JhuRow :=
  mkJhuRow country province "" None None (Some confirmed_cell) (Some "0")
           None.

Definition two_reports : list (date * list JhuRow) :=
  [(737446, [case_row "Italy" "" "1"; case_row "US" "Unassigned" "7";
             case_row "US" "US" "9"]);
   (737447, [case_row "Italy" "" "2"])].

Definition audit_population : gmap PlaceKey Z :=
  <[italy := 60360000]> {[ kosovo := 1800000 ]}.

(** The intervention table of the examples after re-keying, and the merge
    of the two reports with it. *)
Definition example_interventions
  : gmap (option PlaceKey) (TimeSeries string) :=
  (rekey_interventions drop_unassigned raw_interventions ∅).1.

Definition two_reports_run : result MergeState :=
  merge_case_data example_count two_days audit_population
    example_interventions no_interventions two_reports
    (merge_start drop_unassigned).

(** The state that the merge of the two reports ends in. *)
Definition two_reports_state : MergeState :=
  Eval vm_compute in
    match two_reports_run with
    | Ok st => st
    | Raise _ => merge_start drop_unassigned
    end.

(** ** The population table *)

(** [s.replace(',', '')]. *)
Fixpoint remove_commas (s : string) : string :=
  match s with
  | EmptyString => EmptyString
  | String c rest =>
      if bool_decide (c = ","%char) then remove_commas rest
      else String c (remove_commas rest)
  end.

Section Population.
(** Python's [int] on a string. *)
Variable python_int : string → result Z.

(** The body of the loop of [fetch_population_data]. *)
Definition population_row (populations : list (PlaceKey * Z))
    (row : gmap string string) : result (list (PlaceKey * Z)) :=
  country ← row_get row "Country/Region";
  province ← row_get row "Province/State";
  let key := (country, province, "") in
  cell ← row_get row "Population";
  n ← python_int (remove_commas cell);
  Ok (dict_set key n populations).

(** [fetch_population_data], from the parsed table on. *)
Definition fetch_population_data (csv_source : CsvSource)
  : result (list (PlaceKey * Z)) :=
  for_each population_row (rows csv_source) [].
End Population.

(** The number that a row of the population table gives. *)
Definition row_population (python_int : string → result Z)
    (row : gmap string string) : result Z :=
  python_int (remove_commas (default "" (row !! "Population"))).

(** A population table with two rows for Italy. *)
Definition population_row_of (country province cell : string)
  : gmap string string :=
  <["Country/Region" := country]>
  (<["Province/State" := province]> {[ "Population" := cell ]}).

Definition twice_italy : CsvSource :=
  mkCsvSource ["Country/Region"; "Province/State"; "Population"]
    [population_row_of "Italy" "" "60,000,000";
     population_row_of "Kosovo" "" "1,800,000";
     population_row_of "Italy" "" "60,360,000"].

(** A stand-in for [int] on the cells of the examples. *)
Definition example_int (s : string) : result Z :=
  match decimal_value 0 s with
  | Some n => Ok n
  | None => Raise (AssertionError "invalid literal for int()")
  end.

(** Every place of a map has an intervention history. *)
Definition all_intervened (places : gmap PlaceKey Place) : Prop :=
  ∀ k pl, places !! k = Some pl → is_Some (interventions pl).

(** The places of [us_places], each with an intervention history. *)
Definition intervened_places : gmap PlaceKey Place :=
  set_interventions no_interventions <$> us_places.






(** * Theorems *)

(** ** Dates and floats on known values *)

Example ord2ymd_known :
  ord2ymd 737446 = (2020, 1, 22) ∧ ord2ymd 737484 = (2020, 2, 29)
  ∧ ord2ymd 737790 = (2020, 12, 31) ∧ ord2ymd 730120 = (2000, 1, 1)
  ∧ ord2ymd 1 = (1, 1, 1).
Proof. repeat split; vm_compute; reflexivity. Qed.

Example strftime_known :
  strftime "%m/%d/%y" 737446 = "01/22/20"
  ∧ isoformat 737485 = "2020-03-01"
  ∧ path_join "downloads/JHU" "2020-03-01.csv"
    = "downloads/JHU/2020-03-01.csv".
Proof. repeat split; vm_compute; reflexivity. Qed.

(** [5 * (3 / 2)] is 7.5, [3 * (1 / 3)] is 1.0 and [5 * (-3 / 2)] is -7.5
    in binary64. *)
Example rescale_known :
  rescale (SFdiv prec emax (float_of_int 3) (float_of_int 2)) 5 = 7
  ∧ rescale (SFdiv prec emax (float_of_int 1) (float_of_int 3)) 3 = 1
  ∧ rescale (SFdiv prec emax (float_of_int (-3)) (float_of_int 2)) 5 = -7.
Proof. repeat split; vm_compute; reflexivity. Qed.

(** ** Time series *)

Lemma bind_Ok {A B} (f : A → result B) (a : A) : (Ok a ≫= f) = f a.
Proof. done. Qed.

Lemma date_to_position_in_range {A} (ts : TimeSeries A) d :
  in_range ts d →
  date_to_position ts d = Ok (Z.to_nat (d - start_date ts)).
Proof.
  unfold in_range, date_to_position. intros [Hlo Hhi].
  destruct (Z.ltb_spec d (start_date ts)); [lia|].
  destruct (Z.leb_spec (Z.of_nat (length (values ts))) (d - start_date ts));
    [lia|done].
Qed.

Lemma date_to_position_Ok {A} (ts : TimeSeries A) d pos :
  date_to_position ts d = Ok pos →
  in_range ts d ∧ pos = Z.to_nat (d - start_date ts).
Proof.
  unfold in_range, date_to_position.
  destruct (Z.ltb_spec d (start_date ts)); [done|].
  destruct (Z.leb_spec (Z.of_nat (length (values ts))) (d - start_date ts));
    [done|].
  intros [= <-]. split; [lia|done].
Qed.

Lemma ts_get_in_range {A} (ts : TimeSeries A) d :
  in_range ts d →
  ∃ v, ts_get ts d = Ok v
       ∧ values ts !! Z.to_nat (d - start_date ts) = Some v.
Proof.
  intros Hr. unfold ts_get. rewrite (date_to_position_in_range _ _ Hr). simpl.
  destruct (lookup_lt_is_Some_2 (values ts) (Z.to_nat (d - start_date ts)))
    as [v Hv].
  { unfold in_range in Hr. lia. }
  exists v. by rewrite Hv.
Qed.

Lemma ts_get_out_of_range {A} (ts : TimeSeries A) d :
  ¬ in_range ts d → ts_get ts d = Raise OutOfRangeError.
Proof.
  unfold in_range, ts_get, date_to_position. intros Hr.
  destruct (Z.ltb_spec d (start_date ts)); [done|].
  destruct (Z.leb_spec (Z.of_nat (length (values ts))) (d - start_date ts));
    [done|lia].
Qed.

(** Reading a series after a write at [d]. *)
Lemma ts_get_set {A} (ts ts' : TimeSeries A) d v d' :
  ts_set ts d v = Ok ts' →
  ts_get ts' d' = if decide (d' = d) then Ok v else ts_get ts d'.
Proof.
  unfold ts_set. intros Hset.
  destruct (date_to_position ts d) as [pos|] eqn:Hpos; [|done].
  simpl in Hset. injection Hset as <-.
  apply date_to_position_Ok in Hpos as [Hr ->].
  assert (∀ x, in_range (mkTimeSeries (start_date ts)
              (<[Z.to_nat (d - start_date ts) := v]> (values ts))) x
            ↔ in_range ts x) as Hsame.
  { intros x. unfold in_range. simpl. by rewrite length_insert. }
  case_decide as Hd.
  - subst d'. unfold ts_get.
    rewrite date_to_position_in_range by by apply Hsame.
    simpl. rewrite list_lookup_insert_eq; [done|]. unfold in_range in Hr. lia.
  - destruct (decide (in_range ts d')) as [Hr'|Hr'].
    + unfold ts_get.
      rewrite !date_to_position_in_range by (done || by apply Hsame).
      simpl. rewrite list_lookup_insert_ne; [done|].
      unfold in_range in Hr, Hr'. lia.
    + rewrite !ts_get_out_of_range; [done..|]. by rewrite Hsame.
Qed.

Lemma ts_set_shape {A} (ts ts' : TimeSeries A) d v :
  ts_set ts d v = Ok ts' →
  start_date ts' = start_date ts
  ∧ length (values ts') = length (values ts).
Proof.
  unfold ts_set. destruct (date_to_position ts d); [|done].
  simpl. intros [= <-]. simpl. by rewrite length_insert.
Qed.

Lemma ts_set_in_range {A} (ts : TimeSeries A) d v :
  in_range ts d → ∃ ts', ts_set ts d v = Ok ts'.
Proof.
  intros Hr. unfold ts_set. rewrite (date_to_position_in_range _ _ Hr).
  simpl. eauto.
Qed.

Lemma series_of_set_series m m' ts p :
  series_of m' (set_series m ts p)
  = if decide (m' = m) then ts else series_of m' p.
Proof. by destruct m, m'. Qed.

(** ** The misattribution fix *)

Lemma same_shape_in_range t t' m d :
  same_shape t t' →
  in_range (series_of m t') d ↔ in_range (series_of m t) d.
Proof.
  intros Hs. destruct (Hs m) as [H1 H2]. unfold in_range. by rewrite H1, H2.
Qed.

Lemma in_range_same_shape t t' m d :
  same_shape t t' →
  in_range (series_of m t) d → in_range (series_of m t') d.
Proof. intros Hs. by apply same_shape_in_range. Qed.

Lemma same_shape_trans t1 t2 t3 :
  same_shape t1 t2 → same_shape t2 t3 → same_shape t1 t3.
Proof.
  intros H12 H23 m. destruct (H12 m) as [? ?], (H23 m) as [? ?].
  split; congruence.
Qed.

Lemma copy_cell_spec (m : metric) (dst : PlaceKey) (d_dst : date)
    (src : PlaceKey) (d_src : date) (places : gmap PlaceKey Place)
    (s t : Place) :
  places !! src = Some s →
  places !! dst = Some t →
  in_range (series_of m s) d_src →
  in_range (series_of m t) d_dst →
  ∃ t', copy_cell m dst d_dst src d_src places = Ok (<[dst := t']> places)
        ∧ same_shape t t'
        ∧ ∀ m' d',
            ts_get (series_of m' t') d'
            = if decide (m' = m ∧ d' = d_dst)
              then ts_get (series_of m s) d_src
              else ts_get (series_of m' t) d'.
Proof.
  intros Hs Ht Hrs Hrt. unfold copy_cell, places_get. rewrite Hs. simpl.
  destruct (ts_get_in_range _ _ Hrs) as (v & Hv & _). rewrite Hv. simpl.
  rewrite Ht. simpl.
  destruct (ts_set_in_range _ _ v Hrt) as [ts Hts]. rewrite Hts. simpl.
  exists (set_series m ts t). split; [done|]. split.
  - intros m'. rewrite series_of_set_series. case_decide; [subst m'|done].
    by apply ts_set_shape in Hts.
  - intros m' d'. rewrite series_of_set_series.
    destruct (decide (m' = m)) as [->|Hm].
    + rewrite (ts_get_set _ _ _ _ d' Hts).
      destruct (decide (d' = d_dst)) as [->|Hd].
      * by rewrite decide_True.
      * rewrite decide_False; [done|]. by intros [_ ?].
    + rewrite decide_False; [done|]. by intros [? _].
Qed.

(** Settles the tests [decide (m' = m ∧ d' = d)] left by [copy_cell_spec]. *)
Ltac cell_cases :=
  repeat match goal with
  | |- context [decide ?P] =>
      destruct (decide P) as [[? ?]|?];
      try discriminate; try lia; try congruence; try (exfalso; auto; fail)
  end;
  try reflexivity.

(** C7: the misattribution fix.  For two distinct places of the map whose
    series cover the date [d] (and, for the recorded place, the day before),
    [correct_misrecorded_place] succeeds, and for each of the three series:
    the recorded place's value at [d] is its own value at [d - 1]; the
    correct place's value at [d] is the value the recorded place held at [d]
    before; the values of both places at every other date, and every other
    place, are as before. *)
Theorem misattribution_fix (d : date) (correct_p recorded_p : PlaceKey)
    (places : gmap PlaceKey Place) (c r : Place) :
  correct_p ≠ recorded_p →
  places !! correct_p = Some c →
  places !! recorded_p = Some r →
  (∀ m, in_range (series_of m c) d) →
  (∀ m, in_range (series_of m r) d ∧ in_range (series_of m r) (d - 1)) →
  ∃ places' c' r',
    correct_misrecorded_place d correct_p recorded_p places = Ok places'
    ∧ places' !! correct_p = Some c'
    ∧ places' !! recorded_p = Some r'
    ∧ (∀ k, k ≠ correct_p → k ≠ recorded_p → places' !! k = places !! k)
    ∧ ∀ m,
        ts_get (series_of m r') d = ts_get (series_of m r') (d - 1)
        ∧ ts_get (series_of m c') d = ts_get (series_of m r) d
        ∧ ∀ d', d' ≠ d →
            ts_get (series_of m r') d' = ts_get (series_of m r) d'
            ∧ ts_get (series_of m c') d' = ts_get (series_of m c) d'.
Proof.
  intros Hne Hc Hr Hcd Hrd.
  assert (∀ m, in_range (series_of m r) d) as Hrd0 by (intros m; apply Hrd).
  assert (∀ m, in_range (series_of m r) (d - 1)) as Hrd1
    by (intros m; apply Hrd).
  unfold correct_misrecorded_place, places_get at 1 2. rewrite Hc, Hr, !bind_Ok.
  (* the three assignments to the correct place *)
  destruct (copy_cell_spec Confirmed correct_p d recorded_p d places r c)
    as (c1 & -> & Hs1 & Hg1); [done..|]. rewrite bind_Ok.
  destruct (copy_cell_spec Deaths correct_p d recorded_p d
              (<[correct_p := c1]> places) r c1)
    as (c2 & -> & Hs2 & Hg2);
    [by rewrite lookup_insert_ne|by rewrite lookup_insert_eq|done
    |by apply (in_range_same_shape c)|].
  rewrite bind_Ok, insert_insert_eq.
  pose proof (same_shape_trans _ _ _ Hs1 Hs2) as Hs12.
  destruct (copy_cell_spec Recovered correct_p d recorded_p d
              (<[correct_p := c2]> places) r c2)
    as (c3 & -> & Hs3 & Hg3);
    [by rewrite lookup_insert_ne|by rewrite lookup_insert_eq|done
    |by apply (in_range_same_shape c)|].
  rewrite bind_Ok, insert_insert_eq.
  (* the three assignments to the recorded place *)
  set (pl := <[correct_p := c3]> places).
  assert (pl !! recorded_p = Some r) as Hpr
    by (unfold pl; by rewrite lookup_insert_ne).
  destruct (copy_cell_spec Confirmed recorded_p d recorded_p (d - 1) pl r r)
    as (r1 & -> & Ht1 & Hh1); [done..|]. rewrite bind_Ok.
  destruct (copy_cell_spec Deaths recorded_p d recorded_p (d - 1)
              (<[recorded_p := r1]> pl) r1 r1)
    as (r2 & -> & Ht2 & Hh2);
    [by rewrite lookup_insert_eq..|by apply (in_range_same_shape r)
    |by apply (in_range_same_shape r)|].
  rewrite bind_Ok, insert_insert_eq.
  pose proof (same_shape_trans _ _ _ Ht1 Ht2) as Ht12.
  destruct (copy_cell_spec Recovered recorded_p d recorded_p (d - 1)
              (<[recorded_p := r2]> pl) r2 r2)
    as (r3 & -> & Ht3 & Hh3);
    [by rewrite lookup_insert_eq..|by apply (in_range_same_shape r)
    |by apply (in_range_same_shape r)|].
  rewrite insert_insert_eq.
  exists (<[recorded_p := r3]> pl), c3, r3. split; [done|].
  split; [by unfold pl; rewrite lookup_insert_ne, lookup_insert_eq|].
  split; [by rewrite lookup_insert_eq|].
  split.
  { intros k Hk1 Hk2. unfold pl. by rewrite !lookup_insert_ne. }
  clear Hs1 Hs2 Hs3 Hs12 Ht1 Ht2 Ht3 Ht12 Hpr Hcd Hrd Hrd0 Hrd1 Hc Hr.
  intros m. split; [|split; [|intros d' Hd'; split]].
  - rewrite !Hh3, !Hh2, !Hh1. destruct m; cell_cases.
  - rewrite !Hg3, !Hg2, !Hg1. destruct m; cell_cases.
  - rewrite !Hh3, !Hh2, !Hh1. destruct m; cell_cases.
  - rewrite !Hg3, !Hg2, !Hg1. destruct m; cell_cases.
Qed.

(** On 2020-03-23 France takes the 25 cases recorded under French
    Polynesia, which falls back to its 5 cases of the day before. *)
Lemma misattribution_fix_witness :
  ∃ places' c' r',
    correct_misrecorded_place 737507 france french_polynesia march_places
    = Ok places'
    ∧ places' !! france = Some c'
    ∧ places' !! french_polynesia = Some r'
    ∧ ts_get (confirmed c') 737507 = Ok 25
    ∧ ts_get (confirmed r') 737507 = ts_get (confirmed r') 737506.
Proof.
  destruct (misattribution_fix 737507 france french_polynesia march_places
              france_counts french_polynesia_counts)
    as (places' & c' & r' & Hrun & Hc & Hr & _ & Hcells).
  - discriminate.
  - vm_compute. reflexivity.
  - vm_compute. reflexivity.
  - intros []; unfold in_range; simpl; lia.
  - intros []; unfold in_range; simpl; lia.
  - exists places', c', r'. repeat split; try assumption.
    + destruct (Hcells Confirmed) as (_ & Hc25 & _). exact Hc25.
    + destruct (Hcells Confirmed) as (Hprev & _). exact Hprev.
Defined.

(** ** The retroactive rescaling correction *)

Section Prefix.
Context {A : Type} (f : A → A) (arr : list A) (pos : nat).

Lemma prefix_map_length :
  length ((f <$> take pos arr) ++ drop pos arr) = length arr.
Proof. rewrite length_app, length_fmap, length_take, length_drop. lia. Qed.

Lemma prefix_map_lookup_lt i :
  (i < pos)%nat →
  ((f <$> take pos arr) ++ drop pos arr) !! i = f <$> arr !! i.
Proof.
  intros Hi. destruct (decide (i < length arr)%nat) as [Hl|Hl].
  - rewrite lookup_app_l by (rewrite length_fmap, length_take; lia).
    by rewrite list_lookup_fmap, lookup_take_lt.
  - rewrite !lookup_ge_None_2; [done|lia|].
    rewrite prefix_map_length. lia.
Qed.

Lemma prefix_map_lookup_ge i :
  (pos ≤ length arr)%nat → (pos ≤ i)%nat →
  ((f <$> take pos arr) ++ drop pos arr) !! i = arr !! i.
Proof.
  intros Hp Hi.
  rewrite lookup_app_r by (rewrite length_fmap, length_take; lia).
  rewrite length_fmap, length_take, lookup_drop. f_equal. lia.
Qed.
End Prefix.

Lemma ts_get_Ok {A} (ts : TimeSeries A) d v :
  ts_get ts d = Ok v →
  in_range ts d ∧ values ts !! Z.to_nat (d - start_date ts) = Some v.
Proof.
  intros Hget. destruct (decide (in_range ts d)) as [Hr|Hr].
  - split; [done|]. destruct (ts_get_in_range _ _ Hr) as (v' & Hv' & Hl).
    congruence.
  - by rewrite ts_get_out_of_range in Hget.
Qed.

(** What [correct_late_reporting] computes when its reads succeed. *)
Lemma correct_late_reporting_run (p : PlaceKey) (d : date)
    (places : gmap PlaceKey Place) (place : Place) (a b : Z) :
  places !! p = Some place →
  ts_get (deaths place) d = Ok a →
  ts_get (deaths place) (d - 1) = Ok b →
  correct_late_reporting p d places
  = if b =? 0 then Raise ZeroDivisionError
    else
      let factor := SFdiv prec emax (float_of_int a) (float_of_int b) in
      let pos := Z.to_nat (d - start_date (deaths place)) in
      let arr := values (deaths place) in
      Ok (<[p := set_series Deaths
                   (mkTimeSeries (start_date (deaths place))
                      ((rescale factor <$> take pos arr) ++ drop pos arr))
                   place]> places).
Proof.
  intros Hp Ha Hb. unfold correct_late_reporting, places_get.
  rewrite Hp, bind_Ok, Ha, bind_Ok, Hb, bind_Ok. unfold true_div.
  destruct (b =? 0); [done|]. rewrite bind_Ok.
  apply ts_get_Ok in Ha as [Hr _].
  by rewrite (date_to_position_in_range _ _ Hr), bind_Ok.
Qed.

(** C6, as written, fails: with 11 deaths on the day before the pivot date
    and 15 on the pivot date, the 11 deaths become 14, where the exact
    product [11 * (15 / 11)] is 15.  The quotient [15 / 11] is rounded to
    binary64, and its product with 11 lies just under 15. *)
Lemma late_reporting_not_exact :
  (places' ← correct_late_reporting hubei 737532 uneven_hubei_places;
   place' ← places_get places' hubei;
   ts_get (deaths place') 737531) = Ok 14
  ∧ exact_rescale 15 11 11 = 15
  ∧ 14 ≠ exact_rescale 15 11 11.
Proof. repeat split; vm_compute; (reflexivity || discriminate). Qed.

(** C6, amended: the retroactive rescaling correction.  For a place of the
    map whose deaths series covers the pivot date [d] and the day before,
    with a nonzero value [b] on the day before and the value [a] at [d]:
    [correct_late_reporting] succeeds and changes only that place's deaths
    series; the confirmed and recovered series are the same; every deaths
    value at [d] and later is unchanged; every deaths value [v] strictly
    before [d] becomes the binary64 product of [v] and the binary64 quotient
    [a / b], converted to a 64-bit integer, which truncates toward zero. *)
Theorem late_reporting_rescales (p : PlaceKey) (d : date)
    (places : gmap PlaceKey Place) (place : Place) (a b : Z) :
  places !! p = Some place →
  ts_get (deaths place) d = Ok a →
  ts_get (deaths place) (d - 1) = Ok b →
  b ≠ 0 →
  ∃ place',
    correct_late_reporting p d places = Ok (<[p := place']> places)
    ∧ confirmed place' = confirmed place
    ∧ recovered place' = recovered place
    ∧ start_date (deaths place') = start_date (deaths place)
    ∧ length (values (deaths place')) = length (values (deaths place))
    ∧ (∀ d', d ≤ d' → ts_get (deaths place') d' = ts_get (deaths place) d')
    ∧ (∀ d' v, d' < d → ts_get (deaths place) d' = Ok v →
         ts_get (deaths place') d'
         = Ok (astype_int
                 (SFmul prec emax (float_of_int v)
                    (SFdiv prec emax (float_of_int a) (float_of_int b))))).
Proof.
  intros Hp Ha Hb Hnz.
  rewrite (correct_late_reporting_run p d places place a b Hp Ha Hb).
  destruct (Z.eqb_spec b 0) as [?|_]; [done|]. cbv zeta.
  eexists. split; [reflexivity|]. simpl.
  apply ts_get_Ok in Ha as [Hrd _].
  set (f := rescale _). set (pos := Z.to_nat _).
  assert (pos ≤ length (values (deaths place)))%nat as Hpos
    by (unfold pos, in_range in *; lia).
  assert (∀ x, in_range (mkTimeSeries (start_date (deaths place))
                 ((f <$> take pos (values (deaths place)))
                  ++ drop pos (values (deaths place)))) x
               ↔ in_range (deaths place) x) as Hsame.
  { intros x. unfold in_range. simpl. by rewrite prefix_map_length. }
  repeat split.
  - apply prefix_map_length.
  - intros d' Hd'. destruct (decide (in_range (deaths place) d')) as [Hr|Hr].
    + unfold ts_get.
      rewrite !date_to_position_in_range by (done || by apply Hsame).
      rewrite !bind_Ok. simpl.
      rewrite prefix_map_lookup_ge; [done|done|].
      unfold pos, in_range in *. lia.
    + rewrite !ts_get_out_of_range; [done..|]. by rewrite Hsame.
  - intros d' v Hd' Hv. apply ts_get_Ok in Hv as [Hr Hv].
    unfold ts_get. rewrite date_to_position_in_range by by apply Hsame.
    rewrite bind_Ok. simpl.
    rewrite prefix_map_lookup_lt by (unfold pos, in_range in *; lia).
    by rewrite Hv.
Qed.

(** With 20 deaths on 2020-04-16 and 30 on 2020-04-17 the factor is 1.5:
    the 10 and 20 deaths of the two days before become 15 and 30, and the
    30 deaths of the pivot date stay. *)
Lemma late_reporting_rescales_witness :
  ∃ place',
    correct_late_reporting hubei 737532 hubei_places
    = Ok (<[hubei := place']> hubei_places)
    ∧ confirmed place' = mkTimeSeries 737530 [100; 100; 100; 101]
    ∧ ts_get (deaths place') 737530 = Ok 15
    ∧ ts_get (deaths place') 737531 = Ok 30
    ∧ ts_get (deaths place') 737532 = Ok 30.
Proof.
  destruct (late_reporting_rescales hubei 737532 hubei_places
              (mk_counts 737530 [100; 100; 100; 101] [10; 20; 30; 30]
                         [7; 8; 9; 9]) 30 20)
    as (place' & Hrun & Hc & _ & _ & _ & Hlater & Hbefore).
  - vm_compute. reflexivity.
  - vm_compute. reflexivity.
  - vm_compute. reflexivity.
  - lia.
  - exists place'. split; [exact Hrun|]. split; [exact Hc|].
    split; [|split].
    + rewrite (Hbefore 737530 10); [vm_compute; reflexivity|lia|reflexivity].
    + rewrite (Hbefore 737531 20); [vm_compute; reflexivity|lia|reflexivity].
    + rewrite (Hlater 737532); [reflexivity|lia].
Defined.

(** [astype_int] rounds toward zero: unless the float is out of the range
    of the 64-bit integers, the result has the sign of the float and its
    magnitude is the integer part of the float's magnitude [m * 2 ^ e]. *)
Lemma astype_int_toward_zero (s : bool) (m : positive) (e : Z) :
  let z := astype_int (S754_finite s m e) in
  z = - 2 ^ 63
  ∨ ((if s then z ≤ 0 else 0 ≤ z)
     ∧ (0 ≤ e → Z.abs z = Z.pos m * 2 ^ e)
     ∧ (e < 0 → Z.abs z * 2 ^ (- e) ≤ Z.pos m < (Z.abs z + 1) * 2 ^ (- e))).
Proof.
  cbv zeta. unfold astype_int. cbv zeta.
  case_bool_decide as Hrange; [right|by left]. clear Hrange.
  destruct (Z.leb_spec 0 e) as [He|He].
  - assert (0 < 2 ^ e) by (apply Z.pow_pos_nonneg; lia).
    destruct s; repeat split; try lia.
  - assert (0 < 2 ^ (- e)) as Hpow by (apply Z.pow_pos_nonneg; lia).
    pose proof (Z.div_pos (Z.pos m) (2 ^ (- e)) ltac:(lia) Hpow) as Hq.
    pose proof (Z.mul_div_le (Z.pos m) (2 ^ (- e)) Hpow) as Hle.
    pose proof (Z.mul_succ_div_gt (Z.pos m) (2 ^ (- e)) Hpow) as Hgt.
    destruct s; repeat split; try lia.
Qed.

(** A float beyond the 64-bit integers: [2 ^ 63] as a float converts to the
    least 64-bit integer. *)
Example astype_int_out_of_range :
  astype_int (float_of_int (2 ^ 63)) = - 2 ^ 63.
Proof. vm_compute. reflexivity. Qed.

(** The binary64 product is not the exact one: 49 deaths scaled by [1 / 49]
    become 0, where the exact product is 1. *)
Example rescale_rounds_down :
  rescale (SFdiv prec emax (float_of_int 1) (float_of_int 49)) 49 = 0
  ∧ 49 * 1 ÷ 49 = 1.
Proof. split; vm_compute; reflexivity. Qed.



(** ** County-to-state consolidation *)

Section MapSum.
Context {V : Type} (g : PlaceKey → V → Z).

Lemma map_sum_empty : map_sum g ∅ = 0.
Proof. unfold map_sum. by rewrite map_fold_empty. Qed.

Lemma map_sum_insert (m : gmap PlaceKey V) k v :
  m !! k = None → map_sum g (<[k := v]> m) = g k v + map_sum g m.
Proof.
  intros Hk. unfold map_sum. rewrite map_fold_insert_L; [done| |done].
  intros. lia.
Qed.

Lemma map_sum_delete (m : gmap PlaceKey V) k v :
  m !! k = Some v → map_sum g m = g k v + map_sum g (delete k m).
Proof.
  intros Hk. unfold map_sum.
  rewrite (map_fold_delete_L _ _ k v m); [done| |done].
  intros. lia.
Qed.

Lemma map_sum_insert_delete (m : gmap PlaceKey V) k v :
  map_sum g (<[k := v]> m) = g k v + map_sum g (delete k m).
Proof.
  rewrite <-insert_delete_eq. apply map_sum_insert, lookup_delete_eq.
Qed.

Lemma map_sum_zero (m : gmap PlaceKey V) :
  (∀ k v, m !! k = Some v → g k v = 0) → map_sum g m = 0.
Proof.
  induction m as [|k v m Hk IH] using map_ind; intros Hz.
  - apply map_sum_empty.
  - rewrite map_sum_insert by done.
    rewrite (Hz k v) by apply lookup_insert_eq.
    rewrite IH; [done|]. intros k' v' Hk'. apply Hz.
    rewrite lookup_insert_ne; [done|]. intros ->. congruence.
Qed.
End MapSum.

Lemma at_pos_zip_with_add (a b : list Z) i :
  length a = length b →
  at_pos (zip_with Z.add a b) i = at_pos a i + at_pos b i.
Proof.
  intros Hl. unfold at_pos. rewrite lookup_zip_with.
  destruct (a !! i) as [x|] eqn:Ha; simpl.
  - destruct (lookup_lt_is_Some_2 b i) as [y Hy].
    { rewrite <-Hl. by eapply lookup_lt_Some. }
    by rewrite Hy.
  - apply lookup_ge_None in Ha. rewrite lookup_ge_None_2; [done|lia].
Qed.

Lemma at_pos_replicate_zero n i : at_pos (replicate n 0) i = 0.
Proof.
  unfold at_pos. destruct (replicate n 0 !! i) as [x|] eqn:Hx; [|done].
  apply lookup_replicate in Hx as [-> _]. done.
Qed.

Lemma has_shape_new_Place dates : has_shape dates (new_Place dates).
Proof. intros []; simpl; by rewrite length_replicate. Qed.

Lemma add_series_run (m : metric) (state p : PlaceKey)
    (places : gmap PlaceKey Place) (st pl : Place) :
  places !! state = Some st →
  places !! p = Some pl →
  start_date (series_of m st) = start_date (series_of m pl) →
  length (values (series_of m st)) = length (values (series_of m pl)) →
  add_series m state p places
  = Ok (<[state := set_series m (added m st pl) st]> places).
Proof.
  intros Hst Hpl Hs Hl. unfold add_series, places_get.
  rewrite Hst, bind_Ok, Hpl, bind_Ok. unfold ts_iadd.
  by rewrite bool_decide_eq_true_2, bind_Ok.
Qed.

Lemma fold_into_state_run (state p : PlaceKey)
    (places : gmap PlaceKey Place) (st pl : Place) (dates : list date) :
  places !! state = Some st →
  places !! p = Some pl →
  state ≠ p →
  has_shape dates st →
  has_shape dates pl →
  fold_into_state state p places
  = Ok (delete p (<[state := merged st pl]> places)).
Proof.
  intros Hst Hpl Hne Hsst Hspl. unfold fold_into_state.
  assert (∀ m, start_date (series_of m st) = start_date (series_of m pl)
               ∧ length (values (series_of m st))
                 = length (values (series_of m pl))) as Hsame.
  { intros m. destruct (Hsst m) as [-> ->], (Hspl m) as [-> ->]. done. }
  rewrite (add_series_run Confirmed state p places st pl);
    [|done|done|apply Hsame..].
  rewrite bind_Ok.
  erewrite (add_series_run Deaths state p);
    [|apply lookup_insert_eq|by rewrite lookup_insert_ne
     |apply (Hsame Deaths)..].
  rewrite bind_Ok, insert_insert_eq.
  erewrite (add_series_run Recovered state p);
    [|apply lookup_insert_eq|by rewrite lookup_insert_ne
     |apply (Hsame Recovered)..].
  rewrite bind_Ok, insert_insert_eq. unfold places_get.
  rewrite lookup_insert_ne by done. by rewrite Hpl, bind_Ok.
Qed.

Lemma merged_shape dates st pl :
  has_shape dates st → has_shape dates pl → has_shape dates (merged st pl).
Proof.
  intros Hst Hpl m. destruct (Hst m) as [Hs Hl], (Hpl m) as [Hs' Hl'].
  destruct m; simpl in *; rewrite length_zip_with; split; (done || lia).
Qed.

Lemma merged_at_pos dates st pl m i :
  has_shape dates st → has_shape dates pl →
  at_pos (values (series_of m (merged st pl))) i
  = at_pos (values (series_of m st)) i + at_pos (values (series_of m pl)) i.
Proof.
  intros Hst Hpl. destruct (Hst m) as [_ Hl], (Hpl m) as [_ Hl'].
  destruct m; simpl; apply at_pos_zip_with_add; simpl in *; congruence.
Qed.

Lemma state_at_Some (m : metric) (k : PlaceKey) (i : nat)
    (places : gmap PlaceKey Place) (st : Place) :
  places !! k = Some st →
  state_at m k i places = at_pos (values (series_of m st)) i.
Proof. unfold state_at. by intros ->. Qed.

Lemma state_at_None (m : metric) (k : PlaceKey) (i : nat)
    (places : gmap PlaceKey Place) :
  places !! k = None → state_at m k i places = 0.
Proof. unfold state_at. by intros ->. Qed.

Section ConsolidateProofs.
Variable dates : list date.
Variable population_table : gmap PlaceKey Z.
Variable intervention_unknown : TimeSeries string.

Lemma create_state_run (state p : PlaceKey)
    (places : gmap PlaceKey Place) (pl : Place) :
  places !! p = Some pl →
  state ≠ p →
  create_state dates population_table intervention_unknown state p places
  = Ok (<[state := fresh_state dates intervention_unknown state]>
          (<[p := touched_district population_table p pl]> places)).
Proof.
  intros Hpl Hne. unfold create_state, places_get, touched_district.
  rewrite lookup_insert_eq, bind_Ok, insert_insert_eq.
  destruct (population_table !! p) as [n|].
  - rewrite lookup_insert_ne by done. rewrite Hpl, !bind_Ok.
    rewrite lookup_insert_ne by done. rewrite lookup_insert_eq, bind_Ok.
    f_equal. rewrite (insert_insert_ne _ p state) by done.
    by rewrite insert_insert_eq.
  - rewrite bind_Ok, lookup_insert_eq, bind_Ok, insert_insert_eq.
    f_equal. by rewrite (insert_id places p pl).
Qed.

Lemma touched_district_series p pl m :
  series_of m (touched_district population_table p pl) = series_of m pl.
Proof.
  unfold touched_district. destruct (population_table !! p); by destruct m.
Qed.

Lemma fresh_state_shape state :
  has_shape dates (fresh_state dates intervention_unknown state).
Proof. intros []; simpl; by rewrite length_replicate. Qed.

Lemma fresh_state_at_pos state m i :
  at_pos (values (series_of m (fresh_state dates intervention_unknown
                                 state))) i = 0.
Proof. destruct m; apply at_pos_replicate_zero. Qed.

(** One iteration of the loop at a district-level key of the country. *)
Lemma consolidate_one_district (country : string)
    (places : gmap PlaceKey Place) (p : PlaceKey) (pl : Place) :
  all_shaped dates places →
  places !! p = Some pl →
  country_of p = country →
  district_of p ≠ "" →
  ∃ st',
    consolidate_one dates population_table intervention_unknown
      country places p
    = Ok (delete p (<[(country, province_of p, "") := st']> places))
    ∧ has_shape dates st'
    ∧ (places !! (country, province_of p, "") = None →
       population st' = None)
    ∧ ∀ m i,
        at_pos (values (series_of m st')) i
        = state_at m (country, province_of p, "") i places
          + at_pos (values (series_of m pl)) i.
Proof.
  intros Hall Hpl Hc Hd. unfold consolidate_one.
  rewrite bool_decide_eq_true_2 by done. cbv zeta. rewrite Hc.
  set (state := (country, province_of p, "")).
  assert (state ≠ p) as Hne.
  { intros Heq. apply Hd. by rewrite <-Heq. }
  pose proof (Hall _ _ Hpl) as Hspl.
  destruct (places !! state) as [st|] eqn:Hst.
  - rewrite bind_Ok.
    rewrite (fold_into_state_run state p places st pl dates)
      by eauto.
    exists (merged st pl). split; [done|].
    split; [by apply merged_shape; eauto|]. split; [done|].
    intros m i. rewrite (state_at_Some m state i places st) by exact Hst.
    by apply (merged_at_pos dates); eauto.
  - rewrite (create_state_run state p places pl) by done.
    rewrite bind_Ok.
    assert (has_shape dates (touched_district population_table p pl)) as Hstd.
    { intros m. rewrite touched_district_series. apply Hspl. }
    rewrite (fold_into_state_run state p _
               (fresh_state dates intervention_unknown state)
               (touched_district population_table p pl) dates);
      [|apply lookup_insert_eq
       |by rewrite lookup_insert_ne, lookup_insert_eq
       |done|apply fresh_state_shape|done].
    exists (merged (fresh_state dates intervention_unknown state)
              (touched_district population_table p pl)).
    split.
    { f_equal. rewrite insert_insert_eq.
      rewrite (insert_insert_ne _ state p) by done.
      by rewrite delete_insert_eq. }
    split; [by apply merged_shape; [apply fresh_state_shape|]|].
    split; [done|].
    intros m i. rewrite (state_at_None m state i places) by exact Hst.
    rewrite (merged_at_pos dates) by (apply fresh_state_shape || done).
    by rewrite fresh_state_at_pos, touched_district_series.
Qed.
(** One iteration of the loop at any other key. *)
Lemma consolidate_one_skip (country : string)
    (places : gmap PlaceKey Place) (p : PlaceKey) :
  ¬ (country_of p = country ∧ district_of p ≠ "") →
  consolidate_one dates population_table intervention_unknown
    country places p = Ok places.
Proof.
  intros Hno. unfold consolidate_one. by rewrite bool_decide_eq_false_2.
Qed.

(** A step at a district changes the total of a province by nothing:
    what the district loses the state gains. *)
Lemma district_sum_step (country province : string) (m : metric) (i : nat)
    (places : gmap PlaceKey Place) (p : PlaceKey) (pl st' : Place) :
  places !! p = Some pl →
  country_of p = country →
  district_of p ≠ "" →
  district_sum_at m country province i
    (delete p (<[(country, province_of p, "") := st']> places))
  + district_term m country province i p pl
  = district_sum_at m country province i places.
Proof.
  intros Hpl Hc Hd. unfold district_sum_at.
  set (state := (country, province_of p, "")).
  set (g := district_term m country province i).
  assert (state ≠ p) as Hne.
  { intros Heq. apply Hd. by rewrite <-Heq. }
  assert (∀ v, g state v = 0) as Hg0.
  { intros v. unfold g, district_term. rewrite decide_False; [done|].
    by intros (_ & _ & ?). }
  assert (map_sum g (<[state := st']> places) = map_sum g places) as Hins.
  { rewrite map_sum_insert_delete, Hg0.
    destruct (places !! state) as [st|] eqn:Hst.
    - by rewrite (map_sum_delete g places state st), Hg0.
    - by rewrite delete_id. }
  rewrite <-Hins.
  rewrite (map_sum_delete g (<[state := st']> places) p pl)
    by by rewrite lookup_insert_ne.
  apply Z.add_comm.
Qed.

(** The loop of [consolidate_to_province_level] over keys of the map that
    include all its district-level keys of the country. *)
Lemma consolidate_loop (country : string) (ks : list PlaceKey) :
  ∀ places : gmap PlaceKey Place,
    NoDup ks →
    all_shaped dates places →
    (∀ k, k ∈ ks → is_Some (places !! k)) →
    (∀ k, is_Some (places !! k) → country_of k = country →
          district_of k ≠ "" → k ∈ ks) →
    ∃ places',
      for_each (consolidate_one dates population_table intervention_unknown
                  country) ks places = Ok places'
      ∧ all_shaped dates places'
      ∧ (∀ k, is_Some (places' !! k) → country_of k = country →
              district_of k = "")
      ∧ (∀ m province i,
           state_at m (country, province, "") i places'
           + district_sum_at m country province i places'
           = state_at m (country, province, "") i places
             + district_sum_at m country province i places)
      ∧ (∀ k, is_Some (places !! k) → country_of k = country →
              is_Some (places' !! (country, province_of k, "")))
      ∧ (∀ k, country_of k ≠ country → places' !! k = places !! k).
Proof.
  induction ks as [|p ks IH]; intros places Hnd Hall Hin Hcov.
  - exists places. split; [done|]. split; [done|].
    split.
    { intros k Hk Hc. destruct (decide (district_of k = "")) as [|Hd];
        [done|]. by apply Hcov, elem_of_nil in Hd. }
    split; [done|]. split; [|done].
    intros k Hk Hc.
    destruct (decide (district_of k = "")) as [Hd|Hd].
    + destruct k as [[c pr] di]. simpl in *. by subst.
    + by apply Hcov, elem_of_nil in Hd.
  - apply NoDup_cons in Hnd as [Hp Hnd].
    cbn [for_each].
    destruct (decide (country_of p = country ∧ district_of p ≠ ""))
      as [[Hc Hd]|Hno].
    + destruct (Hin p) as [pl Hpl]; [by left|].
      destruct (consolidate_one_district country places p pl)
        as (st' & -> & Hsh & _ & Hval); [done..|].
      rewrite bind_Ok.
      set (state := (country, province_of p, "")) in *.
      assert (state ≠ p) as Hne.
      { intros Heq. apply Hd. by rewrite <-Heq. }
      set (places1 := delete p (<[state := st']> places)).
      assert (∀ k, k ≠ p → k ≠ state → places1 !! k = places !! k)
        as Hoth.
      { intros k ? ?. unfold places1.
        rewrite lookup_delete_ne by done. by rewrite lookup_insert_ne. }
      assert (places1 !! state = Some st') as Hst1.
      { unfold places1. rewrite lookup_delete_ne by done.
        apply lookup_insert_eq. }
      assert (places1 !! p = None) as Hp1 by apply lookup_delete_eq.
      destruct (IH places1)
        as (places' & Hrun & Hall' & Hnone & Htot & Hex & Hrest).
      * done.
      * intros k q Hk. destruct (decide (k = state)) as [->|Hks].
        { rewrite Hst1 in Hk. by injection Hk as <-. }
        destruct (decide (k = p)) as [->|Hkp]; [congruence|].
        rewrite Hoth in Hk by done. by eapply Hall.
      * intros k Hk. destruct (decide (k = state)) as [->|Hks]; [by eauto|].
        assert (k ≠ p) as Hkp by (intros ->; done).
        rewrite Hoth by done. apply Hin. by right.
      * intros k Hk Hck Hdk.
        destruct (decide (k = p)) as [->|Hkp].
        { rewrite Hp1 in Hk. by destruct Hk. }
        assert (k ≠ state) as Hks.
        { intros ->. by apply Hdk. }
        rewrite Hoth in Hk by done.
        destruct (proj1 (elem_of_cons _ _ _) (Hcov k Hk Hck Hdk)) as [?|?];
          done.
      * exists places'. split; [done|]. split; [done|]. split; [done|].
        split; [|split].
        -- intros m province i. rewrite Htot.
           rewrite <-(district_sum_step country province m i places p pl st')
             by done.
           fold state. fold places1.
           unfold district_term.
           destruct (decide (province_of p = province)) as [<-|Hpr].
           ++ rewrite decide_True by done. fold state.
              rewrite (state_at_Some m state i places1 st') by done.
              rewrite Hval. lia.
           ++ rewrite decide_False by (by intros (_ & ? & _)).
              assert ((country, province, "") ≠ state) as Hks.
              { intros [= ?]. done. }
              assert ((country, province, "") ≠ p) as Hkp.
              { intros Heq. apply Hd. by rewrite <-Heq. }
              unfold state_at. rewrite Hoth by done. lia.
        -- intros k Hk Hck.
           destruct (decide (k = p)) as [->|Hkp].
           ++ apply (Hex state); [by eauto|done].
           ++ apply Hex; [|done].
              destruct (decide (k = state)) as [->|Hks]; [by eauto|].
              by rewrite Hoth.
        -- intros k Hck. rewrite Hrest by done. apply Hoth.
           ++ intros ->. done.
           ++ intros ->. done.
    + rewrite consolidate_one_skip by done. rewrite bind_Ok.
      apply IH; [done|done| |].
      * intros k Hk. apply Hin. by right.
      * intros k Hk Hck Hdk.
        destruct (proj1 (elem_of_cons _ _ _) (Hcov k Hk Hck Hdk)) as [->|?];
          [|done].
        by destruct Hno.
Qed.
End ConsolidateProofs.

Lemma sorted_keys_NoDup {V} (m : gmap PlaceKey V) : NoDup (sorted_keys m).
Proof.
  unfold sorted_keys. rewrite merge_sort_Permutation.
  apply NoDup_fst_map_to_list.
Qed.

Lemma elem_of_sorted_keys {V} (m : gmap PlaceKey V) k :
  k ∈ sorted_keys m ↔ is_Some (m !! k).
Proof.
  unfold sorted_keys. rewrite merge_sort_Permutation.
  rewrite list_elem_of_fmap. split.
  - intros ([k' v] & -> & Hkv). apply elem_of_map_to_list in Hkv. by eexists.
  - intros [v Hv]. exists (k, v). split; [done|]. by apply elem_of_map_to_list.
Qed.

(** C5: county-to-state consolidation preserves sums.  When every place of
    the map has its three series over the date range, the consolidation of
    a country succeeds; afterwards no key of that country has a non-empty
    district; every province of the country that had a state-level or a
    district-level place has a state-level place; and each state-level
    series of the country (confirmed, deaths, recovered alike) spans the
    date range and is, position by position, the state-level series before
    (zero if there was none) plus the sum of the series of all the
    districts of that province. *)
Theorem consolidation_sum_preserving (dates : list date)
    (population_table : gmap PlaceKey Z)
    (intervention_unknown : TimeSeries string)
    (country : string) (places : gmap PlaceKey Place) :
  all_shaped dates places →
  ∃ places',
    consolidate_to_province_level dates population_table
      intervention_unknown country places = Ok places'
    ∧ (∀ k, is_Some (places' !! k) → country_of k = country →
            district_of k = "")
    ∧ (∀ k, is_Some (places !! k) → country_of k = country →
            is_Some (places' !! (country, province_of k, "")))
    ∧ (∀ province st',
         places' !! (country, province, "") = Some st' →
         ∀ m,
           start_date (series_of m st') = default 0 (head dates)
           ∧ length (values (series_of m st')) = length dates
           ∧ ∀ i,
               at_pos (values (series_of m st')) i
               = state_at m (country, province, "") i places
                 + district_sum_at m country province i places).
Proof.
  intros Hall. unfold consolidate_to_province_level.
  destruct (consolidate_loop dates population_table intervention_unknown
              country (sorted_keys places) places)
    as (places' & Hrun & Hall' & Hnone & Htot & Hex & _).
  - apply sorted_keys_NoDup.
  - done.
  - intros k. apply elem_of_sorted_keys.
  - intros k Hk _ _. by apply elem_of_sorted_keys.
  - exists places'. split; [done|]. split; [done|]. split; [done|].
    intros province st' Hst' m.
    destruct (Hall' _ _ Hst' m) as [Hs Hl]. split; [done|]. split; [done|].
    intros i. rewrite <-Htot.
    rewrite (state_at_Some m _ i places' st') by done.
    unfold district_sum_at. rewrite map_sum_zero; [lia|].
    intros k v Hk. unfold district_term.
    rewrite decide_False; [done|]. intros (Hc & _ & Hd).
    apply Hd, Hnone; [by eexists|done].
Qed.

Lemma consolidation_sum_preserving_witness :
  ∃ places' ny oh,
    consolidate_to_province_level two_days ∅ no_interventions
      "United States" us_places = Ok places'
    ∧ places' !! ("United States", "New York", "") = Some ny
    ∧ places' !! ("United States", "Ohio", "") = Some oh
    ∧ at_pos (values (confirmed ny)) 0 = 14
    ∧ at_pos (values (confirmed ny)) 1 = 26
    ∧ at_pos (values (confirmed oh)) 0 = 5
    ∧ at_pos (values (confirmed oh)) 1 = 6.
Proof.
  destruct (consolidation_sum_preserving two_days ∅ no_interventions
              "United States" us_places)
    as (places' & Hrun & _ & Hex & Hsum).
  - apply (bool_decide_unpack _). vm_compute. exact I.
  - assert (is_Some (us_places !! ("United States", "New York", "Kings")))
      as Hkings by (vm_compute; eexists; reflexivity).
    assert (is_Some (us_places !! ("United States", "Ohio", "Franklin")))
      as Hfranklin by (vm_compute; eexists; reflexivity).
    destruct (Hex _ Hkings eq_refl) as [ny Hny].
    destruct (Hex _ Hfranklin eq_refl) as [oh Hoh].
    exists places', ny, oh.
    split; [exact Hrun|]. split; [exact Hny|]. split; [exact Hoh|].
    destruct (Hsum _ _ Hny Confirmed) as (_ & _ & Hn).
    destruct (Hsum _ _ Hoh Confirmed) as (_ & _ & Ho).
    repeat split.
    + etrans; [apply (Hn 0%nat)|vm_compute; reflexivity].
    + etrans; [apply (Hn 1%nat)|vm_compute; reflexivity].
    + etrans; [apply (Ho 0%nat)|vm_compute; reflexivity].
    + etrans; [apply (Ho 1%nat)|vm_compute; reflexivity].
Defined.

(** The same run, evaluated. *)
Example consolidation_runs :
  confirmed_table
    <$> (match consolidate_to_province_level two_days ∅ no_interventions
                 "United States" us_places with
         | Ok places' => Some places'
         | Raise _ => None
         end)
  = Some [(("Canada", "Ontario", "Toronto"), [7; 8]);
          (("United States", "New York", ""), [14; 26]);
          (("United States", "Ohio", ""), [5; 6])].
Proof. vm_compute. reflexivity. Qed.

(** ** The population of a state created by the consolidation *)

(** The state-level place that [create_state] makes has no population,
    whatever the population table holds: the assignment under
    [if p in population] writes to [places[p]]. *)
Lemma create_state_population (dates : list date)
    (population_table : gmap PlaceKey Z)
    (intervention_unknown : TimeSeries string)
    (state p : PlaceKey) (places : gmap PlaceKey Place) (pl : Place) :
  places !! p = Some pl →
  state ≠ p →
  ∃ places',
    create_state dates population_table intervention_unknown state p places
    = Ok places'
    ∧ population <$> places' !! state = Some None
    ∧ population <$> places' !! p
      = Some (match population_table !! p with
              | Some n => Some n
              | None => population pl
              end).
Proof.
  intros Hpl Hne. eexists. split; [by apply create_state_run|].
  rewrite lookup_insert_eq, lookup_insert_ne, lookup_insert_eq by done.
  split; [done|]. unfold touched_district.
  by destruct (population_table !! p).
Qed.

(** C3: at the failing input.  Franklin county is in the population table
    and Ohio has no state-level place; after the consolidation of the
    United States the new place of Ohio has Franklin's counts and no
    population. *)
Theorem consolidation_state_population_unset :
  population_at ohio
    (consolidate_to_province_level two_days franklin_population
       no_interventions "United States" franklin_places)
  = Some None
  ∧ confirmed_table
      <$> (match consolidate_to_province_level two_days franklin_population
                   no_interventions "United States" franklin_places with
           | Ok places' => Some places'
           | Raise _ => None
           end)
    = Some [(ohio, [5; 6])].
Proof. split; vm_compute; reflexivity. Qed.

(** ** The intervention table *)

(** No date column has the empty name, so the loop copies every cell. *)
Lemma intervention_cells_raw (row : gmap string string)
    (date_cols : list (date * string)) :
  ∀ (acc : list string) (prev_state : string),
    (∀ ds, ds ∈ date_cols → ds.2 ≠ "" ∧ is_Some (row !! ds.2)) →
    intervention_cells row date_cols acc prev_state
    = Ok (acc ++ raw_cells row date_cols).
Proof.
  induction date_cols as [|[d s] rest IH]; intros acc prev_state Hcols.
  - simpl. by rewrite app_nil_r.
  - destruct (Hcols (d, s)) as [Hs [cell Hcell]]; [by left|]. simpl in *.
    unfold row_get. rewrite Hcell, bind_Ok.
    rewrite bool_decide_eq_false_2 by done.
    rewrite IH by (intros ds Hds; apply Hcols; by right).
    change (raw_cells row ((d, s) :: rest))
      with (default "" (row !! s) :: raw_cells row rest).
    simpl. by rewrite <-app_assoc.
Qed.

(** C1: at the failing input.  The row with the cells
    ['Lockdown', '', 'Reopened'] under three consecutive dates yields the
    series ['Lockdown', '', 'Reopened']; carrying the previous value forward
    would give ['Lockdown', 'Lockdown', 'Reopened']. *)
Theorem intervention_empty_cell_not_carried :
  fetch_intervention_data march_parse_date lockdown_table
  = Ok ([(italy, mkTimeSeries 737485 ["Lockdown"; ""; "Reopened"])],
        mkTimeSeries 737485 ["Unknown"; "Unknown"; "Unknown"])
  ∧ carry_forward "No Intervention" ["Lockdown"; ""; "Reopened"]
    = ["Lockdown"; "Lockdown"; "Reopened"].
Proof. split; vm_compute; reflexivity. Qed.

(** ** The population warning *)

Lemma elem_of_sorted_items {V} (m : gmap PlaceKey V) (k : PlaceKey) (v : V) :
  (k, v) ∈ sorted_items m ↔ m !! k = Some v.
Proof.
  unfold sorted_items. rewrite list_elem_of_omap. split.
  - intros (k' & _ & Hk'). destruct (m !! k') as [v'|] eqn:Hv'; [|done].
    simpl in Hk'. by injection Hk' as <- <-.
  - intros Hk. exists k. split; [apply elem_of_sorted_keys; by eexists|].
    by rewrite Hk.
Qed.

(** The loop prints its line for exactly the places that have a
    population. *)
Lemma population_warning_printed (places : gmap PlaceKey Place) (k : PlaceKey) :
  ("No Population Data: ", k) ∈ population_warnings places
  ↔ ∃ pl n, places !! k = Some pl ∧ population pl = Some n.
Proof.
  unfold population_warnings. rewrite list_elem_of_omap. split.
  - intros ([k' pl] & Hin & Hline). apply elem_of_sorted_items in Hin.
    simpl in Hline. destruct (population pl) as [n|] eqn:Hn; [|done].
    simpl in Hline. injection Hline as <-. by exists pl, n.
  - intros (pl & n & Hk & Hn). exists (k, pl).
    split; [by apply elem_of_sorted_items|]. simpl. by rewrite Hn.
Qed.

(** C2: at the failing input.  Of Italy, which has a population, and
    Kosovo, which has none, the loop reports Italy. *)
Theorem population_warning_inverted :
  population <$> audit_places !! italy = Some (Some 60360000)
  ∧ population <$> audit_places !! kosovo = Some None
  ∧ population_warnings audit_places = [("No Population Data: ", italy)].
Proof. repeat split; vm_compute; reflexivity. Qed.

(** ** Re-keying *)

Lemma canonicalize_same_rules recon raw :
  same_rules recon (canonicalize recon raw).2.
Proof.
  unfold canonicalize, same_rules, note_country, note_used.
  destruct (place_renames recon !! raw); repeat case_bool_decide; done.
Qed.

Lemma canonical_same_rules r1 r2 raw :
  same_rules r1 r2 → canonical r1 raw = canonical r2 raw.
Proof.
  intros [Hr Hd]. unfold canonical, canonicalize. rewrite Hr, Hd.
  destruct (place_renames r2 !! raw); [done|]. by case_bool_decide.
Qed.

(** The population loop keeps the keys that [canonicalize] returns and
    nothing else. *)
Lemma rekey_population_keys (items : list (PlaceKey * Z)) :
  ∀ (recon : PlaceRecon) (acc : gmap PlaceKey Z) (k' : PlaceKey),
    is_Some ((rekey_population recon items acc).1 !! k')
    ↔ is_Some (acc !! k')
      ∨ ∃ k v, (k, v) ∈ items ∧ canonical recon k = Some k'.
Proof.
  induction items as [|[k v] rest IH]; intros recon acc k'.
  - simpl. split; [by left|]. intros [?|(? & ? & []%elem_of_nil & _)]. done.
  - cbn [rekey_population].
    pose proof (canonicalize_same_rules recon k) as Hsame.
    assert (canonical recon k = (canonicalize recon k).1) as Hcan by done.
    destruct (canonicalize recon k) as [[kc|] recon'] eqn:Hc; simpl in *.
    + rewrite IH. rewrite lookup_insert_is_Some. split.
      * intros [[<-|[_ ?]]|(k0 & v0 & Hin & Hk0)].
        -- right. exists k, v. split; [by left|done].
        -- by left.
        -- right. exists k0, v0. split; [by right|].
           by rewrite (canonical_same_rules recon recon').
      * intros [?|(k0 & v0 & Hin & Hk0)].
        -- left. destruct (decide (kc = k')); [by left|by right].
        -- apply elem_of_cons in Hin as [[= -> ->]|Hin].
           ++ left. left. congruence.
           ++ right. exists k0, v0. split; [done|].
              by rewrite <-(canonical_same_rules recon recon').
    + rewrite IH. split.
      * intros [?|(k0 & v0 & Hin & Hk0)]; [by left|].
        right. exists k0, v0. split; [by right|].
        by rewrite (canonical_same_rules recon recon').
      * intros [?|(k0 & v0 & Hin & Hk0)]; [by left|].
        apply elem_of_cons in Hin as [[= -> ->]|Hin]; [congruence|].
        right. exists k0, v0. split; [done|].
        by rewrite <-(canonical_same_rules recon recon').
Qed.

(** The comprehension over the intervention table keeps every key that
    [canonicalize] returns, [None] included. *)
Lemma rekey_interventions_keys {V} (items : list (PlaceKey * V)) :
  ∀ (recon : PlaceRecon) (acc : gmap (option PlaceKey) V)
    (k' : option PlaceKey),
    is_Some ((rekey_interventions recon items acc).1 !! k')
    ↔ is_Some (acc !! k')
      ∨ ∃ k v, (k, v) ∈ items ∧ canonical recon k = k'.
Proof.
  induction items as [|[k v] rest IH]; intros recon acc k'.
  - simpl. split; [by left|]. intros [?|(? & ? & []%elem_of_nil & _)]. done.
  - cbn [rekey_interventions].
    pose proof (canonicalize_same_rules recon k) as Hsame.
    assert (canonical recon k = (canonicalize recon k).1) as Hcan by done.
    destruct (canonicalize recon k) as [kc recon'] eqn:Hc; simpl in *.
    rewrite IH. rewrite lookup_insert_is_Some. split.
    + intros [[<-|[_ ?]]|(k0 & v0 & Hin & Hk0)].
      * right. exists k, v. split; [by left|done].
      * by left.
      * right. exists k0, v0. split; [by right|].
        by rewrite (canonical_same_rules recon recon').
    + intros [?|(k0 & v0 & Hin & Hk0)].
      * left. destruct (decide (kc = k')); [by left|by right].
      * apply elem_of_cons in Hin as [[= -> ->]|Hin].
        -- left. left. congruence.
        -- right. exists k0, v0. split; [done|].
           by rewrite <-(canonical_same_rules recon recon').
Qed.

(** C4: at the failing input.  With a rule that drops the unassigned
    bucket, the re-keyed population table has the key of Italy only, and
    the re-keyed intervention table has the key of Italy and the key
    [None]. *)
Theorem rekeyed_interventions_keep_null_key :
  canonical drop_unassigned unassigned = None
  ∧ (rekey_population drop_unassigned raw_population ∅).1
    = {[ italy := 60360000 ]}
  ∧ (rekey_interventions drop_unassigned raw_interventions ∅).1
    = <[None := no_interventions]> {[ Some italy := no_interventions ]}.
Proof. repeat split; vm_compute; reflexivity. Qed.

(** ** Fetching the daily case reports *)

(** When [fetch] raises an HTTP error: the file is not in the cache, its
    directory is there or can be made, and the response has a client or
    server error status. *)
Lemma fetch_http_error (http_get : string → result Response)
    (source_url dest_file : string) (w : World) (r : Response) :
  files w !! dest_file = None →
  mkdir_parent dest_file w = Ok tt →
  http_get source_url = Ok r →
  400 ≤ status_code r < 600 →
  fetch http_get source_url dest_file (CacheFlag true) true w
  = (Raise (HTTPError (status_code r) (reason r)),
     print ("Downloading: " +:+ source_url +:+ " ---> " +:+ dest_file) w).
Proof.
  intros Hfile Hdir Hget Hcode. unfold fetch, raise_for_status.
  rewrite Hfile, Hdir, bind_Ok, Hget.
  destruct (Z.leb_spec 400 (status_code r)); [|lia].
  destruct (Z.ltb_spec (status_code r) 600); [|lia].
  done.
Qed.

(** C8: a daily case-report file whose fetch fails with an HTTP error.
    The loop of [fetch_raw_jhu_data] stops at that date with
    [SystemExit 1], whatever dates follow, after printing a line that names
    the URL and a line that names the status code and the reason; when the
    code is 404 it prints a third line, which says that the data of that
    date is not published yet. *)
Theorem fetch_http_error_aborts (http_get : string → result Response)
    (JHU_url_format JHU_data_dir : string) (Rows : Type)
    (csv_as_dicts : string → Rows) (d : date) (rest : list date)
    (jhu_data : list (date * Rows)) (w w1 : World) (code : Z) (why : string) :
  fetch http_get (strftime JHU_url_format d)
    (path_join JHU_data_dir (isoformat d +:+ ".csv")) (CacheFlag true) true w
  = (Raise (HTTPError code why), w1) →
  ∃ w',
    fetch_raw_jhu_loop http_get JHU_url_format JHU_data_dir Rows csv_as_dicts
      (d :: rest) jhu_data w
    = (Raise (SystemExit 1), w')
    ∧ files w' = files w1
    ∧ stdout w'
      = stdout w1
        ++ ["Couldn't fetch: " +:+ strftime JHU_url_format d;
            "The fetch failed with code " +:+ pretty code +:+ ": " +:+ why]
        ++ (if decide (code = 404)
            then ["It seems JHU has not yet published the data for "
                  +:+ isoformat d +:+ "."]
            else []).
Proof.
  intros Hfetch. cbn [fetch_raw_jhu_loop]. rewrite Hfetch.
  eexists. split; [reflexivity|]. unfold report_http_error.
  destruct (Z.eqb_spec code 404) as [->|Hne].
  - rewrite decide_True by done. simpl. split; [done|].
    by rewrite <-!app_assoc.
  - rewrite decide_False by done. simpl. split; [done|].
    by rewrite <-!app_assoc.
Qed.

(** On a machine with no cached file and a server that answers 404, the
    run over 2020-01-22 and 2020-01-23 stops at the first date. *)
Lemma fetch_http_error_aborts_witness :
  ∃ w',
    fetch_raw_jhu_data not_published JHU_url_format_default "downloads/JHU"
      string id [737446; 737447] empty_world
    = (Raise (SystemExit 1), w')
    ∧ stdout w'
      = ["Downloading: https://raw.githubusercontent.com/CSSEGISandData/COVID-19/master/csse_covid_19_data/csse_covid_19_daily_reports/01-22-2020.csv ---> downloads/JHU/2020-01-22.csv";
         "Couldn't fetch: https://raw.githubusercontent.com/CSSEGISandData/COVID-19/master/csse_covid_19_data/csse_covid_19_daily_reports/01-22-2020.csv";
         "The fetch failed with code 404: Not Found";
         "It seems JHU has not yet published the data for 2020-01-22."].
Proof.
  destruct (fetch_http_error_aborts not_published JHU_url_format_default
              "downloads/JHU" string id 737446 [737447] [] empty_world
              (fetch not_published (strftime JHU_url_format_default 737446)
                 (path_join "downloads/JHU" (isoformat 737446 +:+ ".csv"))
                 (CacheFlag true) true empty_world).2
              404 "Not Found")
    as (w' & Hrun & _ & Hout).
  - vm_compute. reflexivity.
  - exists w'. split; [exact Hrun|]. rewrite Hout. vm_compute. reflexivity.
Defined.

(** ** CSV output *)



Lemma elem_of_csv_kept (places : gmap PlaceKey Place) k pl :
  (k, pl) ∈ csv_kept places
  ↔ places !! k = Some pl ∧ district_of k = "" ∧ ts_sum (confirmed pl) ≠ 0.
Proof.
  unfold csv_kept. rewrite list_elem_of_filter, elem_of_sorted_items.
  simpl. tauto.
Qed.

Lemma strftime_mdy (d : date) : strftime "%m/%d/%y" d = mdy d.
Proof. reflexivity. Qed.


(** The three files for a country, one of its districts and a country with
    no confirmed case, over 2020-01-22 and 2020-01-23. *)
Example csv_output_runs :
  output_csvs true two_days csv_places
  = Some ([ CStr <$> ["Province/State"; "Country/Region"; "Lat"; "Long";
                      "01/22/20"; "01/23/20"];
            [CStr ""; CStr "Italy"; CStr ""; CStr ""; CInt 1; CInt 2] ],
          [ CStr <$> ["Province/State"; "Country/Region"; "Lat"; "Long";
                      "01/22/20"; "01/23/20"];
            [CStr ""; CStr "Italy"; CStr ""; CStr ""; CInt 0; CInt 1] ],
          [ CStr <$> ["Province/State"; "Country/Region"; "Lat"; "Long";
                      "01/22/20"; "01/23/20"];
            [CStr ""; CStr "Italy"; CStr ""; CStr ""; CInt 0; CInt 0] ])
  ∧ output_csvs false two_days csv_places = None.
Proof. split; vm_compute; reflexivity. Qed.

(** * Further properties of the driver *)

(** ** The cache of [fetch] *)








(** ** The loop over the daily reports *)

Lemma dict_set_fresh {K V} `{EqDecision K} (k : K) (v : V) (d : list (K * V)) :
  k ∉ d.*1 → dict_set k v d = d ++ [(k, v)].
Proof.
  induction d as [|[k' v'] d IH]; intros Hk; [done|].
  simpl in *. apply not_elem_of_cons in Hk as [Hne Hk].
  rewrite decide_False by done. by rewrite IH.
Qed.

Section FetchLoop.
Context (http_get : string → result Response).
Context (JHU_url_format JHU_data_dir : string).
Context {Rows : Type} (csv_as_dicts : string → Rows).

(** A date whose report is cached costs no request and prints nothing. *)
Lemma fetch_raw_jhu_loop_cached (d : date) (rest : list date)
    (jhu_data : list (date * Rows)) (w : World) :
  is_Some (files w !! jhu_file_path JHU_data_dir d) →
  fetch_raw_jhu_loop http_get JHU_url_format JHU_data_dir Rows csv_as_dicts
    (d :: rest) jhu_data w
  = fetch_raw_jhu_loop http_get JHU_url_format JHU_data_dir Rows csv_as_dicts
      rest (dict_set d (csv_as_dicts (cached_text JHU_data_dir w d)) jhu_data)
      w.
Proof.
  intros [[mtime contents] Hfile]. cbn [fetch_raw_jhu_loop].
  unfold cached_text. unfold jhu_file_path in *. unfold fetch.
  rewrite Hfile. simpl. by rewrite Hfile.
Qed.

Lemma fetch_raw_jhu_loop_prefix (pre : list date) :
  ∀ (rest : list date) (jhu_data : list (date * Rows)) (w : World),
    NoDup pre →
    (∀ d, d ∈ pre → d ∉ jhu_data.*1) →
    (∀ d, d ∈ pre → is_Some (files w !! jhu_file_path JHU_data_dir d)) →
    fetch_raw_jhu_loop http_get JHU_url_format JHU_data_dir Rows csv_as_dicts
      (pre ++ rest) jhu_data w
    = fetch_raw_jhu_loop http_get JHU_url_format JHU_data_dir Rows
        csv_as_dicts rest
        (jhu_data
         ++ ((λ d, (d, csv_as_dicts (cached_text JHU_data_dir w d))) <$> pre))
        w.
Proof.
  induction pre as [|d pre IH]; intros rest jhu_data w Hnd Hfresh Hcached.
  - simpl. by rewrite app_nil_r.
  - apply NoDup_cons in Hnd as [Hd Hnd].
    rewrite <-app_comm_cons, fetch_raw_jhu_loop_cached
      by (apply Hcached; by left).
    rewrite dict_set_fresh by (apply Hfresh; by left).
    rewrite IH; [by rewrite <-app_assoc|done| |].
    + intros d' Hd'. rewrite fmap_app. simpl.
      rewrite elem_of_app, list_elem_of_singleton.
      intros [Hin| ->]; [|done]. revert Hin. apply Hfresh. by right.
    + intros d' Hd'. apply Hcached. by right.
Qed.

(** X3.  When the report of every date of the range is cached, the run makes no
    request, prints nothing, and returns the parsed reports in the order of
    the dates. *)
Theorem fetch_raw_jhu_all_cached (dates : list date) (w : World) :
  NoDup dates →
  (∀ d, d ∈ dates → is_Some (files w !! jhu_file_path JHU_data_dir d)) →
  fetch_raw_jhu_data http_get JHU_url_format JHU_data_dir Rows csv_as_dicts
    dates w
  = (Ok ((λ d, (d, csv_as_dicts (cached_text JHU_data_dir w d))) <$> dates),
     w).
Proof.
  intros Hnd Hcached. unfold fetch_raw_jhu_data.
  rewrite <-(app_nil_r dates) at 1.
  rewrite fetch_raw_jhu_loop_prefix; [done|done| |done].
  intros d _. simpl. apply not_elem_of_nil.
Qed.

(** X4.  The run stops at the first date whose fetch fails with an HTTP error:
    the dates before it are read from the cache, and the result does not
    depend on the dates after it, which are never requested. *)
Theorem fetch_raw_jhu_stops_at_first_error (pre : list date) (d : date)
    (rest : list date) (w w1 : World) (code : Z) (why : string) :
  NoDup pre →
  (∀ d', d' ∈ pre → is_Some (files w !! jhu_file_path JHU_data_dir d')) →
  fetch http_get (strftime JHU_url_format d) (jhu_file_path JHU_data_dir d)
    (CacheFlag true) true w
  = (Raise (HTTPError code why), w1) →
  fetch_raw_jhu_data http_get JHU_url_format JHU_data_dir Rows csv_as_dicts
    (pre ++ d :: rest) w
  = (Raise (SystemExit 1),
     report_http_error (strftime JHU_url_format d) d code why w1).
Proof.
  intros Hnd Hcached Hfetch. unfold fetch_raw_jhu_data.
  rewrite fetch_raw_jhu_loop_prefix; [|done| |done].
  - cbn [fetch_raw_jhu_loop]. unfold jhu_file_path in Hfetch.
    by rewrite Hfetch.
  - intros d' _. simpl. apply not_elem_of_nil.
Qed.

End FetchLoop.

Lemma fetch_raw_jhu_all_cached_witness :
  fetch_raw_jhu_data refused JHU_url_format_default "downloads/JHU" string id
    [737446; 737447] two_cached
  = (Ok [(737446, "a"); (737447, "b")], two_cached).
Proof.
  etrans.
  - apply (fetch_raw_jhu_all_cached refused JHU_url_format_default
             "downloads/JHU" id [737446; 737447] two_cached).
    + apply (bool_decide_unpack _). vm_compute. exact I.
    + apply Forall_forall, (bool_decide_unpack _). vm_compute. exact I.
  - vm_compute. reflexivity.
Defined.

Lemma fetch_raw_jhu_stops_at_first_error_witness :
  fetch_raw_jhu_data not_published JHU_url_format_default "downloads/JHU"
    string id ([737446] ++ 737447 :: [737448]) one_cached
  = (Raise (SystemExit 1),
     mkWorld (files one_cached) 7200
       ["Downloading: https://raw.githubusercontent.com/CSSEGISandData/COVID-19/master/csse_covid_19_data/csse_covid_19_daily_reports/01-23-2020.csv ---> downloads/JHU/2020-01-23.csv";
        "Couldn't fetch: https://raw.githubusercontent.com/CSSEGISandData/COVID-19/master/csse_covid_19_data/csse_covid_19_daily_reports/01-23-2020.csv";
        "The fetch failed with code 404: Not Found";
        "It seems JHU has not yet published the data for 2020-01-23."]).
Proof.
  etrans.
  - apply (fetch_raw_jhu_stops_at_first_error not_published
             JHU_url_format_default "downloads/JHU" id [737446] 737447
             [737448] one_cached
             (fetch not_published (strftime JHU_url_format_default 737447)
                (jhu_file_path "downloads/JHU" 737447) (CacheFlag true) true
                one_cached).2
             404 "Not Found").
    + apply (bool_decide_unpack _). vm_compute. exact I.
    + apply Forall_forall, (bool_decide_unpack _). vm_compute. exact I.
    + vm_compute. reflexivity.
  - vm_compute. reflexivity.
Defined.


(** ** The shape of the intervention table *)

Lemma check_consecutive_Ok (cols : list (date * string)) :
  check_consecutive cols = Ok tt →
  ∀ first i c,
    head cols = Some first → cols !! i = Some c →
    c.1 = first.1 + Z.of_nat i.
Proof.
  induction cols as [|a cols IH]; intros Hok first i c Hhead Hi; [done|].
  simpl in Hhead. injection Hhead as ->.
  destruct i as [|i]; simpl in Hi.
  { injection Hi as ->. lia. }
  destruct cols as [|b cols]; [done|].
  cbn [check_consecutive] in Hok.
  destruct (Z.eqb_spec (b.1 - first.1) 1) as [Hdiff|]; [|done].
  rewrite (IH Hok b i c); [lia|done|done].
Qed.

Lemma check_consecutive_gap (l1 l2 : list (date * string))
    (a b : date * string) :
  b.1 - a.1 ≠ 1 →
  check_consecutive (l1 ++ a :: b :: l2)
  = Raise (AssertionError
             "Dates must be consecutive.  Did a column get deleted?").
Proof.
  intros Hgap. induction l1 as [|x l1 IH].
  - simpl. by destruct (Z.eqb_spec (b.1 - a.1) 1).
  - destruct l1 as [|y l1].
    + change (check_consecutive (x :: a :: b :: l2) = Raise
                (AssertionError
                   "Dates must be consecutive.  Did a column get deleted?")).
      cbn [check_consecutive]. destruct (a.1 - x.1 =? 1); [|done].
      apply IH.
    + change (check_consecutive (x :: y :: (l1 ++ a :: b :: l2)) = Raise
                (AssertionError
                   "Dates must be consecutive.  Did a column get deleted?")).
      cbn [check_consecutive]. destruct (y.1 - x.1 =? 1); [|done].
      apply IH.
Qed.

Lemma intervention_cells_length (row : gmap string string)
    (cols : list (date * string)) :
  ∀ acc prev l,
    intervention_cells row cols acc prev = Ok l →
    length l = (length acc + length cols)%nat.
Proof.
  induction cols as [|[d s] cols IH]; intros acc prev l Hl.
  - simpl in Hl. injection Hl as <-. simpl. lia.
  - cbn [intervention_cells] in Hl. unfold row_get in Hl.
    destruct (row !! s) as [cell|]; [|done]. rewrite bind_Ok in Hl.
    case_bool_decide; apply IH in Hl; rewrite Hl, length_app; simpl; lia.
Qed.

Lemma dict_mem_false {K V} `{EqDecision K} (k : K) (d : list (K * V)) :
  dict_mem k d = false → k ∉ d.*1.
Proof. unfold dict_mem. by intros ?%bool_decide_eq_false. Qed.

Section InterventionShape.
Context (parse_date : string → option date).

Lemma intervention_rows_Ok (start : date) (cols : list (date * string))
    (acc acc' : list (PlaceKey * TimeSeries string))
    (row : gmap string string) :
  intervention_rows start cols acc row = Ok acc' →
  ∃ ts, acc' = acc ++ [(row_place row, ts)]
        ∧ (row_place row ∉ acc.*1)
        ∧ start_date ts = start
        ∧ length (values ts) = length cols.
Proof.
  unfold intervention_rows, row_get, row_place. intros Hrow.
  destruct (row !! "Country/Region") as [country|]; [|done].
  destruct (row !! "Province/State") as [province|]; [|done].
  rewrite !bind_Ok in Hrow. simpl.
  destruct (dict_mem (country, province, "") acc) eqn:Hmem; [done|].
  apply dict_mem_false in Hmem.
  destruct (intervention_cells row cols [] "No Intervention") as [l|] eqn:Hl;
    [|done].
  rewrite bind_Ok in Hrow. injection Hrow as <-.
  apply intervention_cells_length in Hl.
  eexists. split; [by apply dict_set_fresh|]. by repeat split.
Qed.

Lemma intervention_loop_Ok (start : date) (cols : list (date * string))
    (rows : list (gmap string string)) :
  ∀ acc res,
    for_each (intervention_rows start cols) rows acc = Ok res →
    NoDup acc.*1 →
    res.*1 = acc.*1 ++ (row_place <$> rows)
    ∧ NoDup res.*1
    ∧ ∀ k ts, (k, ts) ∈ res →
        (k, ts) ∈ acc
        ∨ (start_date ts = start ∧ length (values ts) = length cols).
Proof.
  induction rows as [|row rows IH]; intros acc res Hres Hnd.
  - simpl in Hres. injection Hres as <-. rewrite app_nil_r. by eauto.
  - cbn [for_each] in Hres.
    destruct (intervention_rows start cols acc row) as [acc'|] eqn:Hrow;
      [|done].
    rewrite bind_Ok in Hres.
    apply intervention_rows_Ok in Hrow as (ts & -> & Hfresh & Hs & Hl).
    apply IH in Hres as (Hkeys & Hnd' & Hshape).
    + split; [|split; [done|]].
      { rewrite Hkeys, fmap_app. simpl. by rewrite <-app_assoc. }
      intros k ts' Hin. destruct (Hshape k ts' Hin) as [Hacc|?]; [|by right].
      apply elem_of_app in Hacc as [?|Hnew]; [by left|].
      apply list_elem_of_singleton in Hnew. injection Hnew as -> ->.
      by right.
    + rewrite fmap_app. simpl. apply NoDup_app. split; [done|].
      split; [|apply NoDup_singleton].
      intros k Hk ->%list_elem_of_singleton. done.
Qed.

(** X6.  What a successful [fetch_intervention_data] returns: the date columns
    are consecutive days; there is one entry per row, in the order of the
    rows, keyed by the row's country and province with an empty district,
    and no key twice; every series, and the all-['Unknown'] series, starts
    at the first date and has one value per date column. *)
Theorem fetch_intervention_data_shape (csv_source : CsvSource)
    (interventions : list (PlaceKey * TimeSeries string))
    (unknown : TimeSeries string) :
  fetch_intervention_data parse_date csv_source = Ok (interventions, unknown) →
  ∃ first,
    head (date_cols_of parse_date (headers csv_source)) = Some first
    ∧ (∀ i c, date_cols_of parse_date (headers csv_source) !! i = Some c →
              c.1 = first.1 + Z.of_nat i)
    ∧ unknown
      = mkTimeSeries first.1
          (replicate (length (date_cols_of parse_date (headers csv_source)))
                     "Unknown")
    ∧ interventions.*1 = row_place <$> rows csv_source
    ∧ NoDup interventions.*1
    ∧ ∀ k ts, (k, ts) ∈ interventions →
        district_of k = ""
        ∧ start_date ts = first.1
        ∧ length (values ts)
          = length (date_cols_of parse_date (headers csv_source)).
Proof.
  unfold fetch_intervention_data.
  set (cols := date_cols_of parse_date (headers csv_source)).
  destruct (check_consecutive cols) as [[]|] eqn:Hcheck; [|done].
  rewrite bind_Ok. destruct cols as [|first cols'] eqn:Hcols; [done|].
  rewrite <-Hcols in *.
  destruct (for_each (intervention_rows first.1 cols) (rows csv_source) [])
    as [res|] eqn:Hres; [|done].
  rewrite bind_Ok. intros [= <- <-].
  apply intervention_loop_Ok in Hres as (Hkeys & Hnd & Hshape);
    [|apply NoDup_nil_2].
  exists first. split; [by rewrite Hcols|].
  split.
  { intros i c Hi. apply (check_consecutive_Ok cols); [done| |done].
    by rewrite Hcols. }
  split; [done|]. split; [done|]. split; [done|].
  intros k ts Hin. split.
  - assert (k ∈ res.*1) as Hk.
    { apply list_elem_of_fmap. by exists (k, ts). }
    rewrite Hkeys in Hk. apply list_elem_of_fmap in Hk as (row & -> & _).
    done.
  - destruct (Hshape k ts Hin) as [[]%elem_of_nil|?]; done.
Qed.

(** X7.  A gap between two neighbouring date columns, in date order, fails the
    assertion before any row is read. *)
Theorem fetch_intervention_data_gap (csv_source : CsvSource)
    (l1 l2 : list (date * string)) (a b : date * string) :
  date_cols_of parse_date (headers csv_source) = l1 ++ a :: b :: l2 →
  b.1 - a.1 ≠ 1 →
  fetch_intervention_data parse_date csv_source
  = Raise (AssertionError
             "Dates must be consecutive.  Did a column get deleted?").
Proof.
  intros Hcols Hgap. unfold fetch_intervention_data.
  by rewrite Hcols, check_consecutive_gap.
Qed.

(** X8.  A table none of whose column names parses as a date fails with
    [IndexError], at [date_cols[0]]. *)
Theorem fetch_intervention_data_no_dates (csv_source : CsvSource) :
  (∀ s, s ∈ headers csv_source → parse_date s = None) →
  fetch_intervention_data parse_date csv_source = Raise IndexError.
Proof.
  intros Hnone. unfold fetch_intervention_data, date_cols_of.
  assert (omap (λ s, d ← parse_date s; Some (d, s)) (headers csv_source) = [])
    as ->; [|done].
  induction (headers csv_source) as [|s hs IH]; [done|].
  simpl. rewrite (Hnone s) by by left. simpl. apply IH.
  intros s' Hs'. apply Hnone. by right.
Qed.
End InterventionShape.

Lemma fetch_intervention_data_shape_witness :
  ∃ interventions unknown,
    fetch_intervention_data march_parse_date lockdown_table
    = Ok (interventions, unknown)
    ∧ interventions.*1 = [italy]
    ∧ NoDup interventions.*1
    ∧ values unknown = ["Unknown"; "Unknown"; "Unknown"].
Proof.
  eexists _, _. split; [vm_compute; reflexivity|].
  destruct (fetch_intervention_data_shape march_parse_date lockdown_table
              [(italy, mkTimeSeries 737485 ["Lockdown"; ""; "Reopened"])]
              (mkTimeSeries 737485 ["Unknown"; "Unknown"; "Unknown"]))
    as (first & _ & _ & _ & Hkeys & Hnd & _).
  - vm_compute. reflexivity.
  - split; [exact Hkeys|]. split; [exact Hnd|reflexivity].
Defined.

Lemma fetch_intervention_data_gap_witness :
  fetch_intervention_data march_parse_date gap_table
  = Raise (AssertionError
             "Dates must be consecutive.  Did a column get deleted?").
Proof.
  apply (fetch_intervention_data_gap march_parse_date gap_table []
           [] (737485, "2020-03-01") (737487, "2020-03-03")).
  - vm_compute. reflexivity.
  - simpl. lia.
Defined.

Lemma fetch_intervention_data_no_dates_witness :
  fetch_intervention_data march_parse_date dateless_table = Raise IndexError.
Proof.
  apply (fetch_intervention_data_no_dates march_parse_date dateless_table).
  apply Forall_forall. repeat constructor.
Defined.

(** ** More on the county-to-state consolidation *)

Lemma for_each_unchanged {A S} (body : S → A → result S) (l : list A) (s : S) :
  (∀ x, x ∈ l → body s x = Ok s) → for_each body l s = Ok s.
Proof.
  induction l as [|x l IH]; intros Hbody; [done|].
  cbn [for_each]. rewrite Hbody by by left. rewrite bind_Ok.
  apply IH. intros y Hy. apply Hbody. by right.
Qed.

(** X17.  The consolidation of one country leaves the places of every other
    country as they are, and the places it returns again have their series
    over the date range. *)
Theorem consolidation_keeps_other_countries (dates : list date)
    (population_table : gmap PlaceKey Z)
    (intervention_unknown : TimeSeries string)
    (country : string) (places : gmap PlaceKey Place) :
  all_shaped dates places →
  ∃ places',
    consolidate_to_province_level dates population_table
      intervention_unknown country places = Ok places'
    ∧ all_shaped dates places'
    ∧ ∀ k, country_of k ≠ country → places' !! k = places !! k.
Proof.
  intros Hall. unfold consolidate_to_province_level.
  destruct (consolidate_loop dates population_table intervention_unknown
              country (sorted_keys places) places)
    as (places' & Hrun & Hall' & _ & _ & _ & Hrest).
  - apply sorted_keys_NoDup.
  - done.
  - intros k. apply elem_of_sorted_keys.
  - intros k Hk _ _. by apply elem_of_sorted_keys.
  - by exists places'.
Qed.

Lemma consolidation_keeps_other_countries_witness :
  ∃ places',
    consolidate_to_province_level two_days ∅ no_interventions
      "United States" us_places = Ok places'
    ∧ places' !! ("Canada", "Ontario", "Toronto")
      = Some (counts_of [7; 8]).
Proof.
  destruct (consolidation_keeps_other_countries two_days ∅ no_interventions
              "United States" us_places)
    as (places' & Hrun & _ & Hrest).
  - apply (bool_decide_unpack _). vm_compute. exact I.
  - exists places'. split; [exact Hrun|].
    rewrite Hrest by discriminate. vm_compute. reflexivity.
Defined.

(** X18.  Consolidating a country a second time changes nothing. *)
Theorem consolidation_idempotent (dates : list date)
    (population_table : gmap PlaceKey Z)
    (intervention_unknown : TimeSeries string)
    (country : string) (places : gmap PlaceKey Place) :
  all_shaped dates places →
  ∃ places',
    consolidate_to_province_level dates population_table
      intervention_unknown country places = Ok places'
    ∧ consolidate_to_province_level dates population_table
        intervention_unknown country places' = Ok places'.
Proof.
  intros Hall. unfold consolidate_to_province_level.
  destruct (consolidate_loop dates population_table intervention_unknown
              country (sorted_keys places) places)
    as (places' & Hrun & _ & Hnone & _).
  - apply sorted_keys_NoDup.
  - done.
  - intros k. apply elem_of_sorted_keys.
  - intros k Hk _ _. by apply elem_of_sorted_keys.
  - exists places'. split; [done|].
    apply for_each_unchanged. intros k Hk%elem_of_sorted_keys.
    apply consolidate_one_skip. intros [Hc Hd]. by apply Hd, Hnone.
Qed.

Lemma consolidation_idempotent_witness :
  ∃ places',
    consolidate_to_province_level two_days ∅ no_interventions
      "United States" us_places = Ok places'
    ∧ consolidate_to_province_level two_days ∅ no_interventions
        "United States" places' = Ok places'.
Proof.
  apply (consolidation_idempotent two_days ∅ no_interventions
           "United States" us_places).
  apply (bool_decide_unpack _). vm_compute. exact I.
Defined.

(** ** State-to-country consolidation *)

Lemma map_sum_fold_step {V} (g : PlaceKey → V → Z) (m : gmap PlaceKey V)
    (target p : PlaceKey) (v st' : V) :
  m !! p = Some v →
  target ≠ p →
  (∀ x, g target x = 0) →
  map_sum g (delete p (<[target := st']> m)) + g p v = map_sum g m.
Proof.
  intros Hp Hne Hg0.
  assert (map_sum g (<[target := st']> m) = map_sum g m) as Hins.
  { rewrite map_sum_insert_delete, Hg0.
    destruct (m !! target) as [st|] eqn:Hst.
    - by rewrite (map_sum_delete g m target st), Hg0.
    - by rewrite delete_id. }
  rewrite <-Hins.
  rewrite (map_sum_delete g (<[target := st']> m) p v)
    by by rewrite lookup_insert_ne.
  apply Z.add_comm.
Qed.

Section CountryLevel.
Context (dates : list date) (country : string).

Lemma country_one_skip (places : gmap PlaceKey Place) (p : PlaceKey) :
  ¬ (country_of p = country ∧ province_of p ≠ "") →
  country_one country places p = Ok places.
Proof. intros Hno. unfold country_one. by rewrite bool_decide_eq_false_2. Qed.

Lemma country_one_fold (places : gmap PlaceKey Place) (p : PlaceKey) :
  country_of p = country ∧ province_of p ≠ "" →
  country_one country places p = fold_into_state (country, "", "") p places.
Proof. intros Hyes. unfold country_one. by rewrite bool_decide_eq_true_2. Qed.

Lemma country_loop (ks : list PlaceKey) :
  ∀ (places : gmap PlaceKey Place) (t : Place),
    NoDup ks →
    all_shaped dates places →
    places !! (country, "", "") = Some t →
    (∀ k, k ∈ ks → is_Some (places !! k)) →
    (∀ k, is_Some (places !! k) → country_of k = country →
          province_of k ≠ "" → k ∈ ks) →
    ∃ places' t',
      for_each (country_one country) ks places = Ok places'
      ∧ all_shaped dates places'
      ∧ places' !! (country, "", "") = Some t'
      ∧ (∀ k, is_Some (places' !! k) → country_of k = country →
              province_of k = "")
      ∧ (∀ m i,
           at_pos (values (series_of m t')) i
           = at_pos (values (series_of m t)) i
             + below_sum_at m country i places)
      ∧ (∀ k, country_of k ≠ country → places' !! k = places !! k).
Proof.
  induction ks as [|p ks IH]; intros places t Hnd Hall Ht Hin Hcov.
  - exists places, t. split; [done|]. split; [done|]. split; [done|].
    split.
    { intros k Hk Hc. destruct (decide (province_of k = "")) as [|Hne];
        [done|]. by apply Hcov, elem_of_nil in Hne. }
    split; [|done].
    intros m i. unfold below_sum_at. rewrite map_sum_zero; [lia|].
    intros k v Hk. unfold below_term. rewrite decide_False; [done|].
    intros [Hc Hp]. by apply (Hcov k), elem_of_nil in Hp; [|eexists|].
  - apply NoDup_cons in Hnd as [Hp Hnd]. cbn [for_each].
    destruct (decide (country_of p = country ∧ province_of p ≠ ""))
      as [[Hc Hpr]|Hno].
    + destruct (Hin p) as [pl Hpl]; [by left|].
      set (target := (country, "", "")) in *.
      assert (target ≠ p) as Hne.
      { intros Heq. apply Hpr. by rewrite <-Heq. }
      rewrite (country_one_fold places p) by done. fold target.
      rewrite (fold_into_state_run target p places t pl dates)
        by eauto.
      rewrite bind_Ok.
      set (places1 := delete p (<[target := merged t pl]> places)).
      assert (∀ k, k ≠ p → k ≠ target → places1 !! k = places !! k)
        as Hoth.
      { intros k ? ?. unfold places1.
        rewrite lookup_delete_ne by done. by rewrite lookup_insert_ne. }
      assert (places1 !! target = Some (merged t pl)) as Ht1.
      { unfold places1. rewrite lookup_delete_ne by done.
        apply lookup_insert_eq. }
      assert (places1 !! p = None) as Hp1 by apply lookup_delete_eq.
      destruct (IH places1 (merged t pl))
        as (places' & t' & Hrun & Hall' & Ht' & Hnone & Htot & Hrest).
      * done.
      * intros k q Hk. destruct (decide (k = target)) as [->|Hkt].
        { rewrite Ht1 in Hk. injection Hk as <-.
          apply merged_shape; eauto. }
        destruct (decide (k = p)) as [->|Hkp]; [congruence|].
        rewrite Hoth in Hk by done. by eapply Hall.
      * done.
      * intros k Hk. destruct (decide (k = target)) as [->|Hkt]; [by eauto|].
        assert (k ≠ p) as Hkp by (intros ->; done).
        rewrite Hoth by done. apply Hin. by right.
      * intros k Hk Hck Hpk.
        destruct (decide (k = p)) as [->|Hkp].
        { rewrite Hp1 in Hk. by destruct Hk. }
        assert (k ≠ target) as Hkt.
        { intros ->. by apply Hpk. }
        rewrite Hoth in Hk by done.
        destruct (proj1 (elem_of_cons _ _ _) (Hcov k Hk Hck Hpk)) as [?|?];
          done.
      * exists places', t'. split; [done|]. split; [done|]. split; [done|].
        split; [done|]. split.
        -- intros m i. rewrite Htot.
           rewrite (merged_at_pos dates) by eauto.
           unfold below_sum_at.
           rewrite <-(map_sum_fold_step (below_term m country i) places
                        target p pl (merged t pl)); [| done | done |].
           ++ fold places1. unfold below_term at 3.
              rewrite decide_True by done. lia.
           ++ intros x. unfold below_term. rewrite decide_False; [done|].
              by intros [_ ?].
        -- intros k Hck. rewrite Hrest by done. apply Hoth.
           ++ intros ->. done.
           ++ intros ->. done.
    + rewrite country_one_skip by done. rewrite bind_Ok.
      apply IH; [done|done|done| |].
      * intros k Hk. apply Hin. by right.
      * intros k Hk Hck Hpk.
        destruct (proj1 (elem_of_cons _ _ _) (Hcov k Hk Hck Hpk)) as [->|?];
          [|done].
        by destruct Hno.
Qed.

(** X19.  State-to-country consolidation.  Without a country-level place the
    function raises [KeyError], whatever else the map holds.  With one, and
    every place having its series over the date range, it succeeds: no
    place of the country with a non-empty province remains, each series of
    the country-level place is, position by position, what it was plus the
    sum over all the places of the country that had a non-empty province,
    and the places of other countries are as before. *)
Theorem country_consolidation (places : gmap PlaceKey Place) :
  all_shaped dates places →
  match places !! (country, "", "") with
  | None => consolidate_to_country_level country places = Raise KeyError
  | Some t =>
      ∃ places' t',
        consolidate_to_country_level country places = Ok places'
        ∧ places' !! (country, "", "") = Some t'
        ∧ (∀ k, is_Some (places' !! k) → country_of k = country →
                province_of k = "")
        ∧ (∀ m,
             start_date (series_of m t') = default 0 (head dates)
             ∧ length (values (series_of m t')) = length dates
             ∧ ∀ i,
                 at_pos (values (series_of m t')) i
                 = at_pos (values (series_of m t)) i
                   + below_sum_at m country i places)
        ∧ (∀ k, country_of k ≠ country → places' !! k = places !! k)
  end.
Proof.
  intros Hall. unfold consolidate_to_country_level, places_get.
  destruct (places !! (country, "", "")) as [t|] eqn:Ht; [|done].
  rewrite bind_Ok.
  destruct (country_loop (sorted_keys places) places t)
    as (places' & t' & Hrun & Hall' & Ht' & Hnone & Htot & Hrest).
  - apply sorted_keys_NoDup.
  - done.
  - done.
  - intros k. apply elem_of_sorted_keys.
  - intros k Hk _ _. by apply elem_of_sorted_keys.
  - exists places', t'. split; [done|]. split; [done|]. split; [done|].
    split; [|done]. intros m. destruct (Hall' _ _ Ht' m) as [Hs Hl].
    by repeat split.
Qed.
End CountryLevel.

(** Bavaria with 10 and 20 confirmed cases and Berlin with 5 and 15 leave
    Germany with 15 and 35; without a place for Germany as a whole the
    consolidation raises [KeyError]. *)
Lemma country_consolidation_witness :
  (∃ places' t',
     consolidate_to_country_level "Germany" germany_places = Ok places'
     ∧ places' !! ("Germany", "", "") = Some t'
     ∧ at_pos (values (confirmed t')) 0 = 15
     ∧ at_pos (values (confirmed t')) 1 = 35)
  ∧ consolidate_to_country_level "Germany" headless_germany = Raise KeyError.
Proof.
  split.
  - pose proof (country_consolidation two_days "Germany" germany_places)
      as Hthm.
    change (germany_places !! ("Germany", "", ""))
      with (Some (counts_of [0; 0])) in Hthm.
    destruct Hthm as (places' & t' & Hrun & Ht' & _ & Hsum & _).
    + apply (bool_decide_unpack _). vm_compute. exact I.
    + exists places', t'. split; [exact Hrun|]. split; [exact Ht'|].
      destruct (Hsum Confirmed) as (_ & _ & Hc). split.
      * etrans; [apply (Hc 0%nat)|vm_compute; reflexivity].
      * etrans; [apply (Hc 1%nat)|vm_compute; reflexivity].
  - apply (country_consolidation two_days "Germany" headless_germany).
    apply (bool_decide_unpack _). vm_compute. exact I.
Defined.

(** ** When the point corrections fail *)

Lemma in_range_covers dates (pl : Place) m d :
  has_shape dates pl → in_range (series_of m pl) d ↔ covers dates d.
Proof.
  intros Hs. destruct (Hs m) as [H1 H2]. unfold in_range, covers.
  by rewrite H1, H2.
Qed.

(** One assignment between two places of a map whose series span the date
    range: it succeeds when the range covers both dates and raises
    [OutOfRangeError] otherwise; it keeps the keys and the shapes. *)
Lemma copy_cell_shaped (dates : list date) (m : metric)
    (dst : PlaceKey) (d_dst : date) (src : PlaceKey) (d_src : date)
    (places : gmap PlaceKey Place) :
  all_shaped dates places →
  is_Some (places !! src) →
  is_Some (places !! dst) →
  if decide (covers dates d_src ∧ covers dates d_dst)
  then ∃ places',
         copy_cell m dst d_dst src d_src places = Ok places'
         ∧ all_shaped dates places'
         ∧ ∀ k, is_Some (places' !! k) ↔ is_Some (places !! k)
  else copy_cell m dst d_dst src d_src places = Raise OutOfRangeError.
Proof.
  intros Hall [s Hs] [t Ht].
  pose proof (Hall _ _ Hs) as Hss. pose proof (Hall _ _ Ht) as Hst.
  case_decide as Hcov.
  - destruct Hcov as [Hsrc Hdst].
    destruct (copy_cell_spec m dst d_dst src d_src places s t)
      as (t' & -> & Hshape & _); [done|done| | |].
    + by apply (in_range_covers dates).
    + by apply (in_range_covers dates).
    + eexists. split; [done|]. split.
      * intros k q Hk. destruct (decide (k = dst)) as [->|Hne].
        -- rewrite lookup_insert_eq in Hk. injection Hk as <-.
           intros m'. destruct (Hshape m') as [-> ->]. apply Hst.
        -- rewrite lookup_insert_ne in Hk by done. by eapply Hall.
      * intros k. rewrite lookup_insert_is_Some.
        destruct (decide (dst = k)) as [<-|Hne].
        -- split; [intros _; by eauto|intros _; by left].
        -- split; [intros [?|[_ ?]]; done|intros ?; by right].
  - unfold copy_cell, places_get. rewrite Hs, bind_Ok.
    destruct (decide (covers dates d_src)) as [Hsrc|Hsrc].
    + destruct (ts_get_in_range (series_of m s) d_src) as (v & -> & _).
      { by apply (in_range_covers dates). }
      rewrite bind_Ok, Ht, bind_Ok. unfold ts_set.
      assert (¬ in_range (series_of m t) d_dst) as Hout.
      { rewrite (in_range_covers dates) by done. tauto. }
      unfold in_range in Hout. unfold date_to_position.
      destruct (Z.ltb_spec d_dst (start_date (series_of m t))); [done|].
      destruct (Z.leb_spec (Z.of_nat (length (values (series_of m t))))
                  (d_dst - start_date (series_of m t))); [done|lia].
    + rewrite ts_get_out_of_range; [done|].
      by rewrite (in_range_covers dates).
Qed.

(** X20.  The outcome of the misattribution fix on a map whose places have their
    series over the date range: [KeyError] when one of the two places is
    missing; otherwise [OutOfRangeError] unless the range covers both the
    date and the day before; otherwise success.  So the fix of 2020-03-23
    stops a run whose range starts on that day or later, or ends before
    it. *)
Theorem misrecorded_place_outcome (dates : list date) (d : date)
    (correct_p recorded_p : PlaceKey) (places : gmap PlaceKey Place) :
  all_shaped dates places →
  match places !! correct_p, places !! recorded_p with
  | Some _, Some _ =>
      if decide (covers dates d ∧ covers dates (d - 1))
      then is_Ok (correct_misrecorded_place d correct_p recorded_p places)
      else correct_misrecorded_place d correct_p recorded_p places
           = Raise OutOfRangeError
  | _, _ =>
      correct_misrecorded_place d correct_p recorded_p places = Raise KeyError
  end.
Proof.
  intros Hall. unfold correct_misrecorded_place. unfold places_get.
  destruct (places !! correct_p) as [c|] eqn:Hc;
    [|by destruct (places !! recorded_p)].
  destruct (places !! recorded_p) as [r|] eqn:Hr; [|done].
  rewrite !bind_Ok. cbv zeta.
  assert (∀ (P : Prop), P ∧ P ↔ P) as Hdup by tauto.
  assert (∀ m' dst d_dst src d_src (f : gmap PlaceKey Place →
                                       result (gmap PlaceKey Place))
            (pl : gmap PlaceKey Place),
            all_shaped dates pl →
            is_Some (pl !! correct_p) → is_Some (pl !! recorded_p) →
            (dst = correct_p ∨ dst = recorded_p) → src = recorded_p →
            covers dates d_src → covers dates d_dst →
            (∀ pl', all_shaped dates pl' →
                    is_Some (pl' !! correct_p) →
                    is_Some (pl' !! recorded_p) →
                    is_Ok (f pl')) →
            is_Ok (copy_cell m' dst d_dst src d_src pl ≫= f)) as Hstep.
  { intros m' dst d_dst src d_src f pl Hpl Hpc Hpr Hdst -> Hsrc Hd Hf.
    pose proof (copy_cell_shaped dates m' dst d_dst recorded_p d_src pl
                  Hpl Hpr) as Hcopy.
    rewrite decide_True in Hcopy by done.
    destruct Hcopy as (pl' & -> & Hpl' & Hkeys); [by destruct Hdst as [->| ->]|].
    rewrite bind_Ok. apply Hf; [done|by apply Hkeys..]. }
  case_decide as Hcov.
  - destruct Hcov as [Hd Hprev].
    do 5 (apply Hstep; [done|by eauto|by eauto|by eauto|done|done|done|];
          clear dependent places; intros places Hall Hc Hr).
    pose proof (copy_cell_shaped dates Recovered recorded_p d recorded_p
                  (d - 1) places Hall Hr Hr) as Hcopy.
    rewrite decide_True in Hcopy by done.
    destruct Hcopy as (pl' & -> & _). by eexists.
  - destruct (decide (covers dates d)) as [Hd|Hd].
    + assert (¬ covers dates (d - 1)) as Hprev by tauto.
      assert (∀ m' (pl : gmap PlaceKey Place),
                all_shaped dates pl →
                is_Some (pl !! correct_p) → is_Some (pl !! recorded_p) →
                ∃ pl', copy_cell m' correct_p d recorded_p d pl = Ok pl'
                       ∧ all_shaped dates pl'
                       ∧ is_Some (pl' !! correct_p)
                       ∧ is_Some (pl' !! recorded_p)) as Hgood.
      { intros m' pl Hpl Hpc Hpr.
        pose proof (copy_cell_shaped dates m' correct_p d recorded_p d pl
                      Hpl Hpr Hpc) as Hcopy.
        rewrite decide_True in Hcopy by done.
        destruct Hcopy as (pl' & -> & Hpl' & Hkeys).
        exists pl'. split; [done|]. split; [done|].
        split; by apply Hkeys. }
      destruct (Hgood Confirmed places) as (p1 & -> & H1 & Hc1 & Hr1);
        [by eauto..|].
      rewrite bind_Ok.
      destruct (Hgood Deaths p1) as (p2 & -> & H2 & Hc2 & Hr2); [done..|].
      rewrite bind_Ok.
      destruct (Hgood Recovered p2) as (p3 & -> & H3 & Hc3 & Hr3); [done..|].
      rewrite bind_Ok.
      pose proof (copy_cell_shaped dates Confirmed recorded_p d recorded_p
                    (d - 1) p3 H3 Hr3 Hr3) as Hcopy.
      rewrite decide_False in Hcopy by tauto. by rewrite Hcopy.
    + pose proof (copy_cell_shaped dates Confirmed correct_p d recorded_p d
                    places Hall) as Hcopy.
      rewrite decide_False in Hcopy by tauto.
      rewrite Hcopy; [done|by eauto..].
Qed.

(** Over the two days 2020-01-22 and 2020-01-23, a fix on the second day
    succeeds, a fix on the first day is out of range, and a fix for a place
    that is not in the map raises [KeyError]. *)
Lemma misrecorded_place_outcome_witness :
  is_Ok (correct_misrecorded_place 737447 italy kosovo audit_places)
  ∧ correct_misrecorded_place 737446 italy kosovo audit_places
    = Raise OutOfRangeError
  ∧ correct_misrecorded_place 737447 italy france audit_places
    = Raise KeyError.
Proof.
  assert (all_shaped two_days audit_places) as Hall
    by (apply (bool_decide_unpack _); vm_compute; exact I).
  split; [|split].
  - exact (misrecorded_place_outcome two_days 737447 italy kosovo
             audit_places Hall).
  - exact (misrecorded_place_outcome two_days 737446 italy kosovo
             audit_places Hall).
  - exact (misrecorded_place_outcome two_days 737447 italy france
             audit_places Hall).
Defined.

(** X21.  The rescaling correction on a map whose places have their series over
    the date range: [KeyError] when the place is missing, and
    [OutOfRangeError] unless the range covers both the pivot date and the
    day before.  So the correction of 2020-04-17 stops a run whose range
    starts on that day or later, or ends before it. *)
Theorem late_reporting_needs_both_days (dates : list date) (p : PlaceKey)
    (d : date) (places : gmap PlaceKey Place) :
  all_shaped dates places →
  match places !! p with
  | None => correct_late_reporting p d places = Raise KeyError
  | Some place =>
      ¬ (covers dates d ∧ covers dates (d - 1)) →
      correct_late_reporting p d places = Raise OutOfRangeError
  end.
Proof.
  intros Hall. unfold correct_late_reporting, places_get.
  destruct (places !! p) as [place|] eqn:Hp; [|done].
  intros Hcov. rewrite bind_Ok. cbv zeta.
  pose proof (Hall _ _ Hp) as Hshape.
  destruct (decide (covers dates d)) as [Hd|Hd].
  - destruct (ts_get_in_range (deaths place) d) as (a & -> & _).
    { by apply (in_range_covers dates place Deaths). }
    rewrite bind_Ok, ts_get_out_of_range; [done|].
    rewrite (in_range_covers dates place Deaths) by done. tauto.
  - rewrite (ts_get_out_of_range (deaths place) d); [done|].
    by rewrite (in_range_covers dates place Deaths).
Qed.

Lemma late_reporting_needs_both_days_witness :
  correct_late_reporting italy 737446 audit_places = Raise OutOfRangeError
  ∧ correct_late_reporting italy 737448 audit_places = Raise OutOfRangeError
  ∧ correct_late_reporting france 737447 audit_places = Raise KeyError.
Proof.
  assert (all_shaped two_days audit_places) as Hall
    by (apply (bool_decide_unpack _); vm_compute; exact I).
  pose proof (late_reporting_needs_both_days two_days italy 737446
                audit_places Hall) as Hfirst.
  pose proof (late_reporting_needs_both_days two_days italy 737448
                audit_places Hall) as Hafter.
  change (audit_places !! italy)
    with (Some (set_population 60360000 (counts_of [1; 2])))
    in Hfirst, Hafter.
  split; [|split].
  - apply Hfirst. unfold covers. simpl. lia.
  - apply Hafter. unfold covers. simpl. lia.
  - exact (late_reporting_needs_both_days two_days france 737447
             audit_places Hall).
Defined.

(** ** The layout of the CSV files *)

(** X22.  When every place has its series over the date range, every row of each
    of the three files, the header included, has four cells and one cell
    per date; and the three files have the same rows of places, in the same
    order (their first four columns are equal). *)
Theorem csv_files_rectangular (dates : list date)
    (places : gmap PlaceKey Place) :
  all_shaped dates places →
  (∀ m row, row ∈ csv_file m dates places →
            length row = (4 + length dates)%nat)
  ∧ ∀ m m', take 4 <$> csv_file m dates places
            = take 4 <$> csv_file m' dates places.
Proof.
  intros Hall. split.
  - intros m row. unfold csv_file. rewrite elem_of_cons.
    intros [->|Hrow].
    + unfold csv_headers. rewrite length_fmap, length_app, length_fmap.
      done.
    + apply list_elem_of_fmap in Hrow as ([k pl] & -> & Hin).
      apply elem_of_csv_kept in Hin as (Hk & _).
      unfold csv_row. rewrite length_app, length_fmap. simpl.
      by destruct (Hall _ _ Hk m) as [_ ->].
  - intros m m'. unfold csv_file. rewrite !fmap_cons. f_equal.
    rewrite <-!list_fmap_compose. by apply list_fmap_ext.
Qed.

Lemma csv_files_rectangular_witness :
  (∀ row, row ∈ csv_file Deaths two_days csv_places → length row = 6%nat)
  ∧ take 4 <$> csv_file Deaths two_days csv_places
    = take 4 <$> csv_file Confirmed two_days csv_places.
Proof.
  destruct (csv_files_rectangular two_days csv_places) as [Hlen Hsame].
  - apply (bool_decide_unpack _). vm_compute. exact I.
  - split; [apply (Hlen Deaths)|apply Hsame].
Defined.

(** ** The merge of the case reports *)

Section MergeProofs.
Context (count_of_cell : string → result (option Z)).
Context (dates : list date) (population_table : gmap PlaceKey Z).
Context (interventions_table : gmap (option PlaceKey) (TimeSeries string)).
Context (intervention_unknown : TimeSeries string).

Local Abbreviation merged_ok :=
  (place_merged dates population_table interventions_table
     intervention_unknown).
Local Abbreviation sets_ok := (sets_merged population_table interventions_table).
Local Abbreviation row_step :=
  (merge_row count_of_cell dates population_table interventions_table
     intervention_unknown).

Lemma update_Ok (m : metric) (d : date) (value : option string)
    (pl pl' : Place) :
  update count_of_cell m d value pl = Ok pl' →
  key pl' = key pl ∧ population pl' = population pl
  ∧ interventions pl' = interventions pl ∧ same_shape pl pl'.
Proof.
  unfold update. intros Hup.
  assert (same_shape pl pl) as Hrefl by (intros m'; done).
  destruct value as [cell|]; [|by injection Hup as <-].
  destruct (count_of_cell cell) as [[n|]|]; [| |done].
  - rewrite bind_Ok in Hup.
    destruct (ts_set (series_of m pl) d n) as [ts|] eqn:Hts; [|done].
    rewrite bind_Ok in Hup. injection Hup as <-.
    apply ts_set_shape in Hts.
    split; [by destruct m|]. split; [by destruct m|].
    split; [by destruct m|]. intros m'. rewrite series_of_set_series.
    case_decide; [by subst|done].
  - rewrite bind_Ok in Hup. by injection Hup as <-.
Qed.

Lemma update_merged (m : metric) (d : date) (value : option string)
    (p : PlaceKey) (pl pl' : Place) :
  update count_of_cell m d value pl = Ok pl' →
  merged_ok p pl → merged_ok p pl'.
Proof.
  intros (Hk & Hp & Hi & Hs)%update_Ok (Hkey & Hshape & Hpop & Hint).
  unfold place_merged. rewrite Hk, Hp, Hi.
  split; [done|]. split; [|done]. intros m'.
  by destruct (Hs m') as [-> ->].
Qed.

Lemma create_place_merged (p : PlaceKey) :
  merged_ok p (create_place dates population_table interventions_table
                 intervention_unknown p).
Proof.
  unfold place_merged, create_place.
  destruct (population_table !! p), (interventions_table !! Some p);
    (split; [done|]; split;
     [intros []; simpl; by rewrite length_replicate|]; by split).
Qed.

Lemma record_created_sets (p : PlaceKey) (st : MergeState) :
  ms_places st !! p = None →
  sets_ok st →
  sets_ok (record_created dates population_table interventions_table
             intervention_unknown p st).
Proof.
  intros Hnew Hsets q. destruct (Hsets q) as (Hpop & Hrec & Hunk).
  unfold record_created. simpl. rewrite lookup_insert_is_Some.
  assert (p = q → ¬ is_Some (ms_places st !! q)) as Hfresh.
  { intros <-. rewrite Hnew. by intros [? ?]. }
  pose proof (eq_None_not_Some (interventions_table !! Some p)) as Hnone.
  destruct (decide (p = q)) as [Heq|Hne].
  - specialize (Hfresh Heq). subst q.
    split; [|split]; case_decide;
      rewrite ?elem_of_union, ?elem_of_singleton, ?Hpop, ?Hrec, ?Hunk;
      intuition (try congruence; auto).
  - clear Hfresh Hnone.
    split; [|split]; case_decide;
      rewrite ?elem_of_union, ?elem_of_singleton, ?Hpop, ?Hrec, ?Hunk;
      intuition (try congruence; auto).
Qed.

(** One row: the rules of the canonicalizer stay, the keys grow by the key
    of the row, and what holds of the places and the sets goes on
    holding. *)
Lemma merge_row_Ok (d : date) (st st' : MergeState) (row : JhuRow) :
  row_step d st row = Ok st' →
  same_rules (ms_recon st) (ms_recon st')
  ∧ (∀ p, is_Some (ms_places st' !! p)
          ↔ is_Some (ms_places st !! p)
            ∨ merged_key (ms_recon st) row = Some p)
  ∧ ((∀ p pl, ms_places st !! p = Some pl → merged_ok p pl) →
     ∀ p pl, ms_places st' !! p = Some pl → merged_ok p pl)
  ∧ (sets_ok st → sets_ok st').
Proof.
  unfold merge_row, merged_key, canonical. fold (raw_key row).
  case_bool_decide as Hthrow.
  { intros [= <-]. split; [by split|]. split; [|by split]. intros p.
    split; [by left|by intros [?|?]]. }
  pose proof (canonicalize_same_rules (ms_recon st) (raw_key row)) as Hrules.
  destruct (canonicalize (ms_recon st) (raw_key row)) as [[p|] recon].
  2:{ intros [= <-]. simpl in *. split; [done|]. split; [|done].
      intros q. split; [by left|by intros [?|?]]. }
  simpl in *.
  set (st1 := match ms_places st !! p with
              | Some _ => _
              | None => _
              end).
  assert (ms_recon st1 = recon) as Hrecon1.
  { unfold st1. by destruct (ms_places st !! p). }
  assert (∃ pl0, ms_places st1 !! p = Some pl0
                 ∧ ((∀ q pl, ms_places st !! q = Some pl → merged_ok q pl) →
                    merged_ok p pl0)) as (pl0 & Hpl0 & Hmerged0).
  { unfold st1. destruct (ms_places st !! p) as [pl|] eqn:Hp; simpl.
    - exists pl. split; [done|]. intros Hinv. by apply Hinv.
    - eexists. split; [apply lookup_insert_eq|].
      intros _. apply create_place_merged. }
  assert (∀ q, q ≠ p → ms_places st1 !! q = ms_places st !! q) as Hother.
  { intros q Hq. unfold st1. destruct (ms_places st !! p); simpl; [done|].
    by rewrite lookup_insert_ne. }
  assert (sets_ok st → sets_ok st1) as Hsets1.
  { intros Hsets. unfold st1.
    destruct (ms_places st !! p) as [pl|] eqn:Hp; [exact Hsets|].
    by apply record_created_sets. }
  unfold places_get. rewrite Hpl0, bind_Ok.
  set (pl1 := match row_latitude row with
              | Some _ => _
              | None => _
              end).
  assert (key pl1 = key pl0 ∧ population pl1 = population pl0
          ∧ interventions pl1 = interventions pl0
          ∧ ∀ m, series_of m pl1 = series_of m pl0) as (Hk1 & Hp1 & Hi1 & Hs1).
  { unfold pl1. destruct (row_latitude row), (row_longitude row);
      repeat split; by intros []. }
  destruct (update count_of_cell Confirmed d (row_confirmed row) pl1)
    as [pl2|] eqn:H2; [|done].
  rewrite bind_Ok.
  destruct (update count_of_cell Deaths d (row_deaths row) pl2)
    as [pl3|] eqn:H3; [|done].
  rewrite bind_Ok.
  destruct (update count_of_cell Recovered d (row_recovered row) pl3)
    as [pl4|] eqn:H4; [|done].
  rewrite bind_Ok. intros [= <-]. simpl.
  split; [by rewrite Hrecon1|]. split; [|split].
  - intros q. rewrite lookup_insert_is_Some.
    destruct (decide (p = q)) as [->|Hne].
    { split; [intros _; by right|intros _; by left]. }
    rewrite Hother by done. split.
    + intros [?|[_ ?]]; [done|by left].
    + intros [?|[= ?]]; [by right|done].
  - intros Hinv q pl. destruct (decide (q = p)) as [->|Hne].
    + rewrite lookup_insert_eq. intros [= <-].
      eapply update_merged; [exact H4|].
      eapply update_merged; [exact H3|].
      eapply update_merged; [exact H2|].
      destruct (Hmerged0 Hinv) as (? & Hsh & ? & ?).
      unfold place_merged. rewrite Hk1, Hp1, Hi1.
      repeat split; try done; rewrite Hs1; apply Hsh.
    + rewrite lookup_insert_ne by done. rewrite Hother by done. apply Hinv.
  - intros Hsets q. destruct (Hsets1 Hsets q) as (Hpop & Hrec & Hunk).
    simpl.
    assert (is_Some (<[p := pl4]> (ms_places st1) !! q)
            ↔ is_Some (ms_places st1 !! q)) as ->; [|done].
    rewrite lookup_insert_is_Some.
    destruct (decide (p = q)) as [->|Hne].
    + split; [intros _; by eexists|intros _; by left].
    + split; [by intros [?|[_ ?]]|intros ?; by right].
Qed.
Lemma same_rules_trans (r1 r2 r3 : PlaceRecon) :
  same_rules r1 r2 → same_rules r2 r3 → same_rules r1 r3.
Proof. intros [? ?] [? ?]. split; congruence. Qed.

Lemma merged_key_same_rules (r1 r2 : PlaceRecon) (row : JhuRow) :
  same_rules r1 r2 → merged_key r1 row = merged_key r2 row.
Proof.
  intros Hsame. unfold merged_key. case_bool_decide; [done|].
  by apply canonical_same_rules.
Qed.

(** The rows of one day. *)
Lemma merge_rows_Ok (recon : PlaceRecon) (d : date) (rows : list JhuRow) :
  ∀ st st',
    for_each (row_step d) rows st = Ok st' →
    same_rules recon (ms_recon st) →
    same_rules recon (ms_recon st')
    ∧ (∀ p, is_Some (ms_places st' !! p)
            ↔ is_Some (ms_places st !! p)
              ∨ ∃ row, row ∈ rows ∧ merged_key recon row = Some p)
    ∧ ((∀ p pl, ms_places st !! p = Some pl → merged_ok p pl) →
       ∀ p pl, ms_places st' !! p = Some pl → merged_ok p pl)
    ∧ (sets_ok st → sets_ok st').
Proof.
  induction rows as [|row rows IH]; intros st st' Hrun Hrules.
  - injection Hrun as <-. split; [done|]. split; [|done].
    intros p. split; [by left|]. by intros [?|(? & []%elem_of_nil & _)].
  - cbn [for_each] in Hrun.
    destruct (row_step d st row) as [st1|] eqn:Hrow; [|done].
    rewrite bind_Ok in Hrun.
    apply merge_row_Ok in Hrow as (Hr1 & Hk1 & Hi1 & Hs1).
    pose proof (same_rules_trans _ _ _ Hrules Hr1) as Hrules1.
    destruct (IH st1 st' Hrun Hrules1) as (Hr & Hk & Hi & Hs).
    split; [done|]. split; [|split; [by auto|by auto]].
    intros p. rewrite Hk, Hk1.
    rewrite <-(merged_key_same_rules recon (ms_recon st) row) by done.
    split.
    + intros [[?|?]|(r & Hr' & ?)]; [left; assumption| |].
      * right. exists row. split; [left|assumption].
      * right. exists r. split; [right|]; assumption.
    + intros [?|(r & Hr' & Hkey)]; [left; left; assumption|].
      apply elem_of_cons in Hr' as [->|Hr']; [left; right; assumption|].
      right. exists r. split; assumption.
Qed.

(** The reports of all the days. *)
Lemma merge_days_Ok (recon : PlaceRecon)
    (raw_jhu_data : list (date * list JhuRow)) :
  ∀ st st',
    merge_case_data count_of_cell dates population_table interventions_table
      intervention_unknown raw_jhu_data st = Ok st' →
    same_rules recon (ms_recon st) →
    same_rules recon (ms_recon st')
    ∧ (∀ p, is_Some (ms_places st' !! p)
            ↔ is_Some (ms_places st !! p)
              ∨ ∃ day row, day ∈ raw_jhu_data ∧ row ∈ day.2
                           ∧ merged_key recon row = Some p)
    ∧ ((∀ p pl, ms_places st !! p = Some pl → merged_ok p pl) →
       ∀ p pl, ms_places st' !! p = Some pl → merged_ok p pl)
    ∧ (sets_ok st → sets_ok st').
Proof.
  unfold merge_case_data.
  induction raw_jhu_data as [|day days IH]; intros st st' Hrun Hrules.
  - injection Hrun as <-. split; [done|]. split; [|done].
    intros p. split; [by left|].
    by intros [?|(? & ? & []%elem_of_nil & _)].
  - cbn [for_each] in Hrun.
    destruct (for_each (row_step day.1) day.2 st) as [st1|] eqn:Hday;
      [|done].
    rewrite bind_Ok in Hrun.
    apply (merge_rows_Ok recon) in Hday as (Hrules1 & Hk1 & Hi1 & Hs1);
      [|done].
    destruct (IH st1 st' Hrun Hrules1) as (Hr & Hk & Hi & Hs).
    split; [done|]. split; [|split; [by auto|by auto]].
    intros p. rewrite Hk, Hk1. split.
    + intros [[?|(r & Hr' & ?)]|(dy & r & Hd & Hr' & ?)];
        [left; assumption| |].
      * right. exists day, r. split; [left|split; assumption].
      * right. exists dy, r. split; [right; assumption|split; assumption].
    + intros [?|(dy & r & Hd & Hr' & Hkey)]; [left; left; assumption|].
      apply elem_of_cons in Hd as [->|Hd].
      * left. right. exists r. split; assumption.
      * right. exists dy, r. split; [assumption|split; assumption].
Qed.

(** The merge from the empty state. *)
Lemma merge_start_Ok (recon : PlaceRecon)
    (raw_jhu_data : list (date * list JhuRow)) (st : MergeState) :
  merge_case_data count_of_cell dates population_table interventions_table
    intervention_unknown raw_jhu_data (merge_start recon) = Ok st →
  (∀ p, is_Some (ms_places st !! p)
        ↔ ∃ day row, day ∈ raw_jhu_data ∧ row ∈ day.2
                     ∧ merged_key recon row = Some p)
  ∧ (∀ p pl, ms_places st !! p = Some pl → merged_ok p pl)
  ∧ sets_ok st.
Proof.
  intros Hrun.
  apply (merge_days_Ok recon) in Hrun as (_ & Hk & Hi & Hs); [|by split].
  split; [|split].
  - intros p. rewrite Hk. simpl. rewrite lookup_empty. split.
    + by intros [[? ?]|?].
    + intros ?. by right.
  - apply Hi. intros p pl. simpl. by rewrite lookup_empty.
  - apply Hs. intros p. simpl. rewrite lookup_empty.
    split; [|split]; (split; [by intros ?%not_elem_of_empty|]);
      by intros [[? ?] _].
Qed.

(** X12.  The places that the merge builds.  A key has a place exactly when some
    row of some day, not on the deny list, canonicalizes to it; and every
    place carries its own key, three series over the date range, the
    population that the table has for its key (none otherwise) and an
    intervention history: the table's for its key, the all-['Unknown']
    series otherwise. *)
Theorem merge_builds_places (recon : PlaceRecon)
    (raw_jhu_data : list (date * list JhuRow)) (st : MergeState) :
  merge_case_data count_of_cell dates population_table interventions_table
    intervention_unknown raw_jhu_data (merge_start recon) = Ok st →
  (∀ p, is_Some (ms_places st !! p)
        ↔ ∃ day row, day ∈ raw_jhu_data ∧ row ∈ day.2
                     ∧ merged_key recon row = Some p)
  ∧ ∀ p pl, ms_places st !! p = Some pl →
      key pl = Some p
      ∧ has_shape dates pl
      ∧ population pl = population_table !! p
      ∧ interventions pl
        = Some (default intervention_unknown
                  (interventions_table !! Some p)).
Proof.
  intros Hrun. apply merge_start_Ok in Hrun as (Hk & Hi & _). by split.
Qed.

(** X13.  The three sets after the merge: [populations_recorded] holds the places
    that the population table knows, [interventions_recorded] those that
    the intervention table knows, [unknown_interventions_places] the other
    places. *)
Theorem merge_bookkeeping (recon : PlaceRecon)
    (raw_jhu_data : list (date * list JhuRow)) (st : MergeState) :
  merge_case_data count_of_cell dates population_table interventions_table
    intervention_unknown raw_jhu_data (merge_start recon) = Ok st →
  ∀ p,
    (p ∈ populations_recorded st
     ↔ is_Some (ms_places st !! p) ∧ is_Some (population_table !! p))
    ∧ (p ∈ interventions_recorded st
       ↔ is_Some (ms_places st !! p)
         ∧ is_Some (interventions_table !! Some p))
    ∧ (p ∈ unknown_interventions_places st
       ↔ is_Some (ms_places st !! p) ∧ interventions_table !! Some p = None).
Proof.
  intros Hrun. by apply merge_start_Ok in Hrun as (_ & _ & Hs).
Qed.
End MergeProofs.

Lemma omap_all_None {A B} (f : A → option B) (l : list A) :
  (∀ x, x ∈ l → f x = None) → omap f l = [].
Proof.
  induction l as [|x l IH]; intros Hnone; [done|].
  simpl. rewrite Hnone by by left. apply IH. intros y Hy. apply Hnone.
  by right.
Qed.

Section MergeConsequences.
Context (count_of_cell : string → result (option Z)).
Context (dates : list date) (population_table : gmap PlaceKey Z).
Context (interventions_table : gmap (option PlaceKey) (TimeSeries string)).
Context (intervention_unknown : TimeSeries string).
Context (recon : PlaceRecon) (raw_jhu_data : list (date * list JhuRow)).
Context (st : MergeState).
Context (Hrun : merge_case_data count_of_cell dates population_table
                  interventions_table intervention_unknown raw_jhu_data
                  (merge_start recon) = Ok st).

(** X14.  Every place that the merge builds has an intervention history, so the
    loop that prints [No Intervention Data] prints nothing on them. *)
Theorem merge_no_intervention_warning :
  intervention_warnings (ms_places st) = [].
Proof.
  unfold intervention_warnings. apply omap_all_None.
  intros [k pl] Hin%elem_of_sorted_items. simpl.
  destruct (merge_start_Ok _ _ _ _ _ _ _ _ Hrun) as (_ & Hplaces & _).
  destruct (Hplaces k pl Hin) as (_ & _ & _ & ->). done.
Qed.

(** X15.  The loop that prints [Lost population data for] reports a key exactly
    when the population table has it and no case row was filed under
    it. *)
Theorem merge_lost_population (p : PlaceKey) :
  ("Lost population data for: ", p)
    ∈ lost_population_warnings population_table (populations_recorded st)
  ↔ is_Some (population_table !! p) ∧ ms_places st !! p = None.
Proof.
  unfold lost_population_warnings. rewrite list_elem_of_omap.
  destruct (merge_start_Ok _ _ _ _ _ _ _ _ Hrun) as (_ & _ & Hsets).
  destruct (Hsets p) as (Hpop & _).
  split.
  - intros (q & Hq%elem_of_sorted_keys & Hline).
    case_decide as Hrec; [done|]. injection Hline as ->.
    split; [done|]. apply eq_None_not_Some. intros Hsome.
    apply Hrec, Hpop. by split.
  - intros [Htable Hnone]. exists p.
    split; [by apply elem_of_sorted_keys|].
    rewrite decide_False; [done|].
    intros [[? Hsome] _]%Hpop. congruence.
Qed.

(** X16.  What the merge builds is what the consolidation asks for: the
    county-to-state consolidation of any country succeeds on it. *)
Theorem merge_then_consolidate (population' : gmap PlaceKey Z)
    (unknown' : TimeSeries string) (country : string) :
  is_Ok (consolidate_to_province_level dates population' unknown' country
           (ms_places st)).
Proof.
  destruct (merge_start_Ok _ _ _ _ _ _ _ _ Hrun) as (_ & Hplaces & _).
  unfold consolidate_to_province_level.
  destruct (consolidate_loop dates population' unknown' country
              (sorted_keys (ms_places st)) (ms_places st))
    as (places' & Hok & _).
  - apply sorted_keys_NoDup.
  - intros k pl Hk. by destruct (Hplaces k pl Hk) as (_ & ? & _).
  - intros k. apply elem_of_sorted_keys.
  - intros k Hk _ _. by apply elem_of_sorted_keys.
  - by exists places'.
Qed.
End MergeConsequences.

(** The run of the example succeeds, and its rows are filed under the key
    of Italy or under none. *)
Lemma two_reports_run_Ok : two_reports_run = Ok two_reports_state.
Proof. vm_compute. reflexivity. Qed.

Lemma two_reports_keys (p : PlaceKey) :
  bool_decide (p ≠ italy) = true →
  Forall (λ day : date * list JhuRow,
            Forall (λ row, merged_key drop_unassigned row ≠ Some p) day.2)
         two_reports.
Proof.
  intros Hp%bool_decide_eq_true.
  assert (Forall (λ day : date * list JhuRow,
                    Forall (λ row, merged_key drop_unassigned row = Some italy
                                   ∨ merged_key drop_unassigned row = None)
                           day.2) two_reports) as Hrows.
  { apply (bool_decide_unpack _). vm_compute. exact I. }
  eapply Forall_impl; [exact Hrows|]. intros day Hday. simpl in Hday.
  eapply Forall_impl; [exact Hday|]. intros row [Heq|Heq]; simpl in Heq;
    rewrite Heq; congruence.
Qed.

(** The merge of the two reports: Italy has a place, with the population
    of the table and the intervention history of the table; the unassigned
    bucket and the row of the United States as a whole have none. *)
Lemma merge_builds_places_witness :
  ∃ st pl,
    two_reports_run = Ok st
    ∧ ms_places st !! italy = Some pl
    ∧ key pl = Some italy
    ∧ population pl = Some 60360000
    ∧ interventions pl = Some no_interventions
    ∧ ms_places st !! unassigned = None
    ∧ ms_places st !! ("US", "US", "") = None.
Proof.
  pose proof two_reports_run_Ok as Hrun.
  destruct (merge_builds_places _ _ _ _ _ _ _ _ Hrun) as [Hkeys Hplaces].
  destruct (proj2 (Hkeys italy)) as [pl Hpl].
  { exists (737446, [case_row "Italy" "" "1"; case_row "US" "Unassigned" "7";
                     case_row "US" "US" "9"]), (case_row "Italy" "" "1").
    split; [left|]. split; [left|]. vm_compute. reflexivity. }
  destruct (Hplaces italy pl Hpl) as (Hk & _ & Hp & Hi).
  exists two_reports_state, pl. split; [exact Hrun|]. split; [exact Hpl|].
  split; [exact Hk|]. split; [exact Hp|]. split; [exact Hi|].
  split.
  - apply eq_None_not_Some. intros (day & row & Hday & Hrow & Hkey)%Hkeys.
    pose proof (proj1 (Forall_forall _ _)
                  (proj1 (Forall_forall _ _)
                     (two_reports_keys unassigned eq_refl) day Hday)
                  row Hrow) as Hne.
    congruence.
  - apply eq_None_not_Some. intros (day & row & Hday & Hrow & Hkey)%Hkeys.
    pose proof (proj1 (Forall_forall _ _)
                  (proj1 (Forall_forall _ _)
                     (two_reports_keys ("US", "US", "") eq_refl) day Hday)
                  row Hrow) as Hne.
    congruence.
Defined.

Lemma merge_bookkeeping_witness :
  italy ∈ populations_recorded two_reports_state
  ∧ italy ∈ interventions_recorded two_reports_state
  ∧ italy ∉ unknown_interventions_places two_reports_state.
Proof.
  destruct (merge_bookkeeping _ _ _ _ _ _ _ _ two_reports_run_Ok italy)
    as (Hpop & Hrec & Hunk).
  assert (is_Some (ms_places two_reports_state !! italy)) as Hpl
    by (vm_compute; eexists; reflexivity).
  split; [|split].
  - apply Hpop. split; [exact Hpl|]. vm_compute. eexists. reflexivity.
  - apply Hrec. split; [exact Hpl|]. vm_compute. eexists. reflexivity.
  - intros [_ Hnone]%Hunk. vm_compute in Hnone. discriminate.
Defined.

Lemma merge_no_intervention_warning_witness :
  intervention_warnings (ms_places two_reports_state) = [].
Proof.
  exact (merge_no_intervention_warning _ _ _ _ _ _ _ _ two_reports_run_Ok).
Defined.

(** Kosovo, which is in the population table only, is reported lost. *)
Lemma merge_lost_population_witness :
  ("Lost population data for: ", kosovo)
    ∈ lost_population_warnings audit_population
        (populations_recorded two_reports_state).
Proof.
  apply (merge_lost_population _ _ _ _ _ _ _ _ two_reports_run_Ok kosovo).
  split; [vm_compute; eexists; reflexivity|]. vm_compute. reflexivity.
Defined.

Lemma merge_then_consolidate_witness :
  is_Ok (consolidate_to_province_level two_days audit_population
           no_interventions "United States" (ms_places two_reports_state)).
Proof.
  exact (merge_then_consolidate _ _ _ _ _ _ _ _ two_reports_run_Ok _ _ _).
Defined.

(** ** The population table *)

Section DictSet.
Context {K V : Type} `{EqDecision K}.

Lemma dict_set_keys (k : K) (v : V) (d : list (K * V)) :
  (dict_set k v d).*1 = if decide (k ∈ d.*1) then d.*1 else d.*1 ++ [k].
Proof.
  induction d as [|[k' v'] d IH]; [done|]. cbn [dict_set].
  destruct (decide (k' = k)) as [->|Hne].
  - rewrite !fmap_cons. cbn [fst]. by rewrite decide_True by by left.
  - rewrite !fmap_cons. cbn [fst]. rewrite IH.
    destruct (decide (k ∈ d.*1)) as [Hin|Hin].
    + by rewrite decide_True by by right.
    + rewrite decide_False; [done|].
      intros [?|?]%elem_of_cons; congruence.
Qed.

Lemma dict_set_NoDup (k : K) (v : V) (d : list (K * V)) :
  NoDup d.*1 → NoDup (dict_set k v d).*1.
Proof.
  intros Hnd. rewrite dict_set_keys. case_decide as Hin; [done|].
  apply NoDup_app. split; [done|]. split; [|apply NoDup_singleton].
  intros k' Hk' ->%list_elem_of_singleton. done.
Qed.

Lemma elem_of_dict_set (k k' : K) (v v' : V) (d : list (K * V)) :
  NoDup d.*1 →
  (k', v') ∈ dict_set k v d
  ↔ (k' = k ∧ v' = v) ∨ (k' ≠ k ∧ (k', v') ∈ d).
Proof.
  induction d as [|[k0 v0] d IH]; intros Hnd.
  - simpl. rewrite list_elem_of_singleton. split.
    + intros [= -> ->]. by left.
    + intros [[-> ->]|[_ []%elem_of_nil]]. done.
  - simpl in *. apply NoDup_cons in Hnd as [Hk0 Hnd].
    destruct (decide (k0 = k)) as [->|Hne].
    + rewrite !elem_of_cons. split.
      * intros [[= -> ->]|Hin]; [by left|].
        right. split; [|by right]. intros ->. apply Hk0.
        apply list_elem_of_fmap. by exists (k, v').
      * intros [[-> ->]|[Hne [[= -> ->]|Hin]]]; [by left|done|by right].
    + rewrite !elem_of_cons, IH by done. split.
      * intros [[= -> ->]|[[-> ->]|[? ?]]];
          [right; split; [done|by left]|by left|right; split; [done|by right]].
      * intros [[-> ->]|[? [[= -> ->]|?]]];
          [right; by left|by left|right; right; by split].
Qed.
End DictSet.

Section PopulationProofs.
Context (python_int : string → result Z).

Lemma population_row_Ok (acc acc' : list (PlaceKey * Z))
    (row : gmap string string) :
  population_row python_int acc row = Ok acc' →
  ∃ n, row_population python_int row = Ok n
       ∧ acc' = dict_set (row_place row) n acc.
Proof.
  unfold population_row, row_get, row_population, row_place.
  destruct (row !! "Country/Region") as [country|]; [|done].
  destruct (row !! "Province/State") as [province|]; [|done].
  destruct (row !! "Population") as [cell|]; [|done].
  rewrite !bind_Ok. simpl.
  destruct (python_int (remove_commas cell)) as [n|]; [|done].
  rewrite bind_Ok. intros [= <-]. by exists n.
Qed.

Lemma population_loop_Ok (rows : list (gmap string string)) :
  ∀ acc res,
    for_each (population_row python_int) rows acc = Ok res →
    NoDup acc.*1 →
    NoDup res.*1
    ∧ ∀ k n, (k, n) ∈ res ↔
        ((k, n) ∈ acc ∧ ∀ row, row ∈ rows → row_place row ≠ k)
        ∨ ∃ l1 row l2,
            rows = l1 ++ row :: l2
            ∧ row_place row = k
            ∧ row_population python_int row = Ok n
            ∧ ∀ r, r ∈ l2 → row_place r ≠ k.
Proof.
  induction rows as [|row rows IH]; intros acc res Hrun Hnd.
  - injection Hrun as <-. split; [done|]. intros k n. split.
    + intros Hin. left. split; [done|]. by intros ? ?%elem_of_nil.
    + intros [[? _]|(l1 & r & l2 & Heq & _)]; [done|].
      by destruct l1.
  - cbn [for_each] in Hrun.
    destruct (population_row python_int acc row) as [acc'|] eqn:Hrow;
      [|done].
    rewrite bind_Ok in Hrun.
    apply population_row_Ok in Hrow as (v & Hv & ->).
    destruct (IH _ _ Hrun (dict_set_NoDup _ _ _ Hnd)) as [Hnd' Hres].
    split; [done|]. intros k n. rewrite Hres, elem_of_dict_set by done.
    split.
    + intros [[[[-> ->]|[Hne Hin]] Hnone]|(l1 & r & l2 & -> & Hk & Hn & Hl2)].
      * right. exists [], row, rows. by repeat split.
      * left. split; [done|]. intros r [->|Hr]%elem_of_cons; [done|].
        by apply Hnone.
      * right. exists (row :: l1), r, l2. by repeat split.
    + intros [[Hin Hnone]|(l1 & r & l2 & Heq & Hk & Hn & Hl2)].
      * left. split.
        -- right. split; [|done]. intros ->. by apply (Hnone row); [left|].
        -- intros r Hr. apply Hnone. by right.
      * destruct l1 as [|r0 l1]; simpl in Heq; injection Heq as -> ->.
        -- left. split; [|done]. left. split; [done|]. congruence.
        -- right. by exists l1, r, l2.
Qed.

(** X9.  What a successful [fetch_population_data] returns: no key twice; a key
    is in the table exactly when a row has its country and province, every
    key has an empty district, and the number of a key is the number of
    the last row for it, read after its commas are removed. *)
Theorem fetch_population_data_last_row_wins (csv_source : CsvSource)
    (populations : list (PlaceKey * Z)) :
  fetch_population_data python_int csv_source = Ok populations →
  NoDup populations.*1
  ∧ ∀ k n, (k, n) ∈ populations ↔
      ∃ l1 row l2,
        rows csv_source = l1 ++ row :: l2
        ∧ row_place row = k
        ∧ row_population python_int row = Ok n
        ∧ ∀ r, r ∈ l2 → row_place r ≠ k.
Proof.
  unfold fetch_population_data. intros Hrun.
  apply population_loop_Ok in Hrun as [Hnd Hres]; [|apply NoDup_nil_2].
  split; [done|]. intros k n. rewrite Hres. split.
  - by intros [[[]%elem_of_nil _]|?].
  - intros ?. by right.
Qed.
End PopulationProofs.

(** Of the two rows for Italy the second gives its population. *)
Lemma fetch_population_data_last_row_wins_witness :
  fetch_population_data example_int twice_italy
  = Ok [(italy, 60360000); (kosovo, 1800000)]
  ∧ NoDup [italy; kosovo]
  ∧ (italy, 60360000) ∈ [(italy, 60360000); (kosovo, 1800000)].
Proof.
  assert (fetch_population_data example_int twice_italy
          = Ok [(italy, 60360000); (kosovo, 1800000)]) as Hrun
    by (vm_compute; reflexivity).
  destruct (fetch_population_data_last_row_wins example_int twice_italy _
              Hrun) as [Hnd Hlast].
  split; [exact Hrun|]. split; [exact Hnd|].
  apply Hlast.
  exists [population_row_of "Italy" "" "60,000,000";
          population_row_of "Kosovo" "" "1,800,000"],
         (population_row_of "Italy" "" "60,360,000"), [].
  split; [reflexivity|]. split; [reflexivity|].
  split; [vm_compute; reflexivity|]. by intros r ?%elem_of_nil.
Defined.

(** ** The fallback over the names of a field *)

(** X11.  [first_present] returns the value under the first of the names that
    the row has, and nothing exactly when the row has none of them. *)
Theorem first_present_first {V} (d : gmap string V) (ks : list string) :
  match first_present d ks with
  | Some v =>
      ∃ l1 k l2, ks = l1 ++ k :: l2 ∧ d !! k = Some v
                 ∧ ∀ k', k' ∈ l1 → d !! k' = None
  | None => ∀ k, k ∈ ks → d !! k = None
  end.
Proof.
  induction ks as [|k ks IH]; simpl.
  - by intros ? ?%elem_of_nil.
  - destruct (d !! k) as [v|] eqn:Hk.
    + exists [], k, ks. split; [done|]. split; [done|].
      by intros ? ?%elem_of_nil.
    + destruct (first_present d ks) as [v|].
      * destruct IH as (l1 & k' & l2 & -> & Hk' & Hl1).
        exists (k :: l1), k', l2. split; [done|]. split; [done|].
        intros k0 [->|?]%elem_of_cons; [done|]. by apply Hl1.
      * intros k0 [->|?]%elem_of_cons; [done|]. by apply IH.
Qed.

(** ** The keys of the re-keyed population table *)

(** X10.  The loop that re-keys the population table keeps a key exactly when
    [canonicalize] returns it for a key of the table: the entries whose key
    canonicalizes to [None] are dropped. *)
Theorem rekey_population_canonical_keys (recon : PlaceRecon)
    (items : list (PlaceKey * Z)) (k' : PlaceKey) :
  is_Some ((rekey_population recon items ∅).1 !! k')
  ↔ ∃ k v, (k, v) ∈ items ∧ canonical recon k = Some k'.
Proof.
  rewrite rekey_population_keys, lookup_empty. split.
  - by intros [[? ?]|?].
  - intros ?. by right.
Qed.

(** ** The intervention history through the later stages *)

Lemma intervention_warnings_nil (places : gmap PlaceKey Place) :
  intervention_warnings places = [] ↔ all_intervened places.
Proof.
  unfold intervention_warnings, all_intervened. split.
  - intros Hnil k pl Hk.
    destruct (interventions pl) as [ts|] eqn:Hi; [by eexists|].
    assert (("No Intervention Data: ", k)
              ∈ omap (λ kp : PlaceKey * Place,
                        if is_None (interventions kp.2)
                        then Some ("No Intervention Data: ", kp.1)
                        else None) (sorted_items places)) as Hin.
    { apply list_elem_of_omap. exists (k, pl).
      split; [by apply elem_of_sorted_items|]. simpl. by rewrite Hi. }
    rewrite Hnil in Hin. by apply elem_of_nil in Hin.
  - intros Hall. apply omap_all_None.
    intros [k pl] Hin%elem_of_sorted_items. simpl.
    by destruct (Hall k pl Hin) as [ts ->].
Qed.

Lemma interventions_set_series (m : metric) (ts : TimeSeries Z)
    (pl : Place) :
  interventions (set_series m ts pl) = interventions pl.
Proof. by destruct m. Qed.

Lemma all_intervened_insert (places : gmap PlaceKey Place) (k : PlaceKey)
    (pl : Place) :
  all_intervened places → is_Some (interventions pl) →
  all_intervened (<[k := pl]> places).
Proof.
  intros Hall Hpl k' pl'. destruct (decide (k' = k)) as [->|Hne].
  - rewrite lookup_insert_eq. by intros [= <-].
  - rewrite lookup_insert_ne by done. apply Hall.
Qed.

Lemma all_intervened_delete (places : gmap PlaceKey Place) (k : PlaceKey) :
  all_intervened places → all_intervened (delete k places).
Proof.
  intros Hall k' pl'. destruct (decide (k' = k)) as [->|Hne].
  - by rewrite lookup_delete_eq.
  - rewrite lookup_delete_ne by done. apply Hall.
Qed.

Lemma add_series_intervened (m : metric) (state p : PlaceKey)
    (places places' : gmap PlaceKey Place) :
  add_series m state p places = Ok places' →
  all_intervened places → all_intervened places'.
Proof.
  unfold add_series, places_get. intros Hrun Hall.
  destruct (places !! state) as [st|] eqn:Hst; [|done].
  destruct (places !! p) as [pl|]; [|done]. rewrite !bind_Ok in Hrun.
  destruct (ts_iadd (series_of m st) (series_of m pl)) as [ts|]; [|done].
  rewrite bind_Ok in Hrun. injection Hrun as <-.
  apply all_intervened_insert; [done|].
  rewrite interventions_set_series. by eapply Hall.
Qed.

Lemma fold_into_state_intervened (state p : PlaceKey)
    (places places' : gmap PlaceKey Place) :
  fold_into_state state p places = Ok places' →
  all_intervened places → all_intervened places'.
Proof.
  unfold fold_into_state. intros Hrun Hall.
  destruct (add_series Confirmed state p places) as [p1|] eqn:H1; [|done].
  rewrite bind_Ok in Hrun.
  destruct (add_series Deaths state p p1) as [p2|] eqn:H2; [|done].
  rewrite bind_Ok in Hrun.
  destruct (add_series Recovered state p p2) as [p3|] eqn:H3; [|done].
  rewrite bind_Ok in Hrun. unfold places_get in Hrun.
  destruct (p3 !! p); [|done]. rewrite bind_Ok in Hrun.
  injection Hrun as <-. apply all_intervened_delete.
  eauto using add_series_intervened.
Qed.

Lemma create_state_intervened (dates : list date)
    (population_table : gmap PlaceKey Z)
    (intervention_unknown : TimeSeries string) (state p : PlaceKey)
    (places places' : gmap PlaceKey Place) :
  create_state dates population_table intervention_unknown state p places
  = Ok places' →
  all_intervened places → all_intervened places'.
Proof.
  unfold create_state, places_get. intros Hrun Hall. cbv zeta in Hrun.
  rewrite lookup_insert_eq, bind_Ok, insert_insert_eq in Hrun.
  set (places1 := <[state := set_key state (new_Place dates)]> places) in *.
  assert (∀ k pl, k ≠ state → places1 !! k = Some pl →
                  is_Some (interventions pl)) as Hall1.
  { intros k pl Hne. unfold places1. rewrite lookup_insert_ne by done.
    apply Hall. }
  assert (∀ places2 : gmap PlaceKey Place,
            (∀ k pl, k ≠ state → places2 !! k = Some pl →
                     is_Some (interventions pl)) →
            match places2 !! state with
            | Some st => Ok st
            | None => Raise KeyError
            end ≫= (λ st : Place,
              Ok (<[state := set_interventions intervention_unknown st]>
                    places2)) = Ok places' →
            all_intervened places') as Hlast.
  { intros places2 Hall2 Hend.
    destruct (places2 !! state) as [st|]; [|done].
    rewrite bind_Ok in Hend. injection Hend as <-.
    intros k pl'. destruct (decide (k = state)) as [->|Hne].
    - rewrite lookup_insert_eq. intros [= <-]. by eexists.
    - rewrite lookup_insert_ne by done. by apply Hall2. }
  destruct (population_table !! p) as [n|].
  - destruct (places1 !! p) as [pl|] eqn:Hp; [|done].
    rewrite !bind_Ok in Hrun. eapply Hlast; [|exact Hrun].
    intros k pl' Hk. destruct (decide (k = p)) as [->|Hne].
    + rewrite lookup_insert_eq. intros [= <-]. simpl. by eapply Hall1.
    + rewrite lookup_insert_ne by done. by apply Hall1.
  - rewrite bind_Ok in Hrun. by eapply Hlast.
Qed.

Lemma for_each_keeps {A S} (body : S → A → result S) (I : S → Prop)
    (l : list A) :
  (∀ s x s', body s x = Ok s' → I s → I s') →
  ∀ s s', for_each body l s = Ok s' → I s → I s'.
Proof.
  intros Hbody. induction l as [|x l IH]; intros s s' Hrun Hs.
  - by injection Hrun as <-.
  - cbn [for_each] in Hrun. destruct (body s x) as [s1|] eqn:Hx; [|done].
    rewrite bind_Ok in Hrun. eauto.
Qed.

Lemma copy_cell_intervened (m : metric) (dst : PlaceKey) (d_dst : date)
    (src : PlaceKey) (d_src : date)
    (places places' : gmap PlaceKey Place) :
  copy_cell m dst d_dst src d_src places = Ok places' →
  all_intervened places → all_intervened places'.
Proof.
  unfold copy_cell, places_get. intros Hrun Hall.
  destruct (places !! src) as [s|]; [|done]. rewrite bind_Ok in Hrun.
  destruct (ts_get (series_of m s) d_src) as [v|]; [|done].
  rewrite bind_Ok in Hrun.
  destruct (places !! dst) as [t|] eqn:Ht; [|done]. rewrite bind_Ok in Hrun.
  destruct (ts_set (series_of m t) d_dst v) as [ts|]; [|done].
  rewrite bind_Ok in Hrun. injection Hrun as <-.
  apply all_intervened_insert; [done|].
  rewrite interventions_set_series. by eapply Hall.
Qed.

(** X23.  The stages after the merge keep the loop that prints
    [No Intervention Data] silent: if it prints nothing on a map of places,
    it prints nothing on what either consolidation or either correction
    makes of that map.  (A place made by the county-to-state consolidation
    gets the all-['Unknown'] series, and the other stages change the three
    count series only.) *)
Theorem later_stages_keep_interventions (dates : list date)
    (population_table : gmap PlaceKey Z)
    (intervention_unknown : TimeSeries string) (country : string)
    (d : date) (p q : PlaceKey) (places places' : gmap PlaceKey Place) :
  intervention_warnings places = [] →
  consolidate_to_province_level dates population_table intervention_unknown
    country places = Ok places'
  ∨ consolidate_to_country_level country places = Ok places'
  ∨ correct_misrecorded_place d p q places = Ok places'
  ∨ correct_late_reporting p d places = Ok places' →
  intervention_warnings places' = [].
Proof.
  rewrite !intervention_warnings_nil. intros Hall [Hrun|[Hrun|[Hrun|Hrun]]].
  - unfold consolidate_to_province_level in Hrun.
    eapply (for_each_keeps _ all_intervened); [|exact Hrun|exact Hall].
    intros s x s' Hone Hs. unfold consolidate_one in Hone.
    case_bool_decide; [|by injection Hone as <-].
    cbv zeta in Hone.
    destruct (s !! (country_of x, province_of x, "")) as [st|].
    + rewrite bind_Ok in Hone. by eapply fold_into_state_intervened.
    + destruct (create_state dates population_table intervention_unknown
                  (country_of x, province_of x, "") x s) as [s1|] eqn:Hc;
        [|done].
      rewrite bind_Ok in Hone.
      eapply fold_into_state_intervened; [exact Hone|].
      by eapply create_state_intervened.
  - unfold consolidate_to_country_level in Hrun.
    destruct (places_get places (country, "", "")); [|done].
    rewrite bind_Ok in Hrun.
    eapply (for_each_keeps _ all_intervened); [|exact Hrun|exact Hall].
    intros s x s' Hone Hs. unfold country_one in Hone.
    case_bool_decide; [|by injection Hone as <-].
    by eapply fold_into_state_intervened.
  - unfold correct_misrecorded_place in Hrun.
    destruct (places_get places p); [|done]. rewrite bind_Ok in Hrun.
    destruct (places_get places q); [|done]. rewrite bind_Ok in Hrun.
    cbv zeta in Hrun.
    destruct (copy_cell Confirmed p d q d places) as [p1|] eqn:H1; [|done].
    rewrite bind_Ok in Hrun.
    destruct (copy_cell Deaths p d q d p1) as [p2|] eqn:H2; [|done].
    rewrite bind_Ok in Hrun.
    destruct (copy_cell Recovered p d q d p2) as [p3|] eqn:H3; [|done].
    rewrite bind_Ok in Hrun.
    destruct (copy_cell Confirmed q d q (d - 1) p3) as [p4|] eqn:H4; [|done].
    rewrite bind_Ok in Hrun.
    destruct (copy_cell Deaths q d q (d - 1) p4) as [p5|] eqn:H5; [|done].
    rewrite bind_Ok in Hrun.
    eauto 10 using copy_cell_intervened.
  - unfold correct_late_reporting, places_get in Hrun.
    destruct (places !! p) as [place|] eqn:Hp; [|done].
    rewrite bind_Ok in Hrun. cbv zeta in Hrun.
    destruct (ts_get (deaths place) d) as [a|]; [|done].
    rewrite bind_Ok in Hrun.
    destruct (ts_get (deaths place) (d - 1)) as [b|]; [|done].
    rewrite bind_Ok in Hrun.
    destruct (true_div a b) as [factor|]; [|done]. rewrite bind_Ok in Hrun.
    destruct (date_to_position (deaths place) d) as [pos|]; [|done].
    rewrite bind_Ok in Hrun. injection Hrun as <-.
    apply all_intervened_insert; [done|]. simpl. by eapply Hall.
Qed.

(** The places of the example all have a history; the consolidation of the
    United States, which makes the state of Ohio, runs and leaves the loop
    silent. *)
Lemma later_stages_keep_interventions_witness :
  match consolidate_to_province_level two_days audit_population
          no_interventions "United States" intervened_places with
  | Ok places' => intervention_warnings places' = []
  | Raise _ => False
  end.
Proof.
  destruct (consolidate_to_province_level two_days audit_population
              no_interventions "United States" intervened_places)
    as [places'|e] eqn:Hrun.
  - apply (later_stages_keep_interventions two_days audit_population
             no_interventions "United States" 0 italy italy
             intervened_places places').
    + vm_compute. reflexivity.
    + left. exact Hrun.
  - assert (match consolidate_to_province_level two_days audit_population
                     no_interventions "United States" intervened_places with
            | Ok _ => True
            | Raise _ => False
            end) as Hok by (vm_compute; exact I).
    rewrite Hrun in Hok. exact Hok.
Defined.

(** ** The rows of the daily reports *)

(** A row read under the column names of the newer reports: the newer names
    win over the older ones, and a row with no [Admin2] column has the empty
    district. *)
Lemma jhu_row_newer_names (keyed_row : gmap string string)
    (country province : string) :
  keyed_row !! "Country_Region" = Some country →
  keyed_row !! "Province_State" = Some province →
  ∃ row, jhu_row keyed_row = Some row
         ∧ row_country row = country ∧ row_province row = province
         ∧ row_district row = default "" (keyed_row !! "Admin2")
         ∧ row_confirmed row = keyed_row !! "Confirmed"
         ∧ row_deaths row = keyed_row !! "Deaths"
         ∧ row_recovered row = keyed_row !! "Recovered".
Proof.
  intros Hc Hp. unfold jhu_row. cbn [first_present]. rewrite Hc, Hp.
  eexists. split; [reflexivity|]. cbn.
  repeat split; try reflexivity.
  all: match goal with
       | |- context [?m !! ?k] => destruct (m !! k)
       end; reflexivity.
Qed.
